(** * Knowledge-graph frontend: graph canvas, graph view and position bridge

    A shallow embedding of the TypeScript sources

    - [src/types/graph.d.ts]        (data model),
    - [src/api/apiClient.ts]        ([debounce], [debouncedUpdateNodePosition]),
    - [GraphView]                   ([convertToForceGraphData] and the handlers
                                     owning the held graph data and selection),
    - [GraphCanvas]                 (snapshot reconciliation, drag handlers,
                                     [fitToScreen], [centerOnNode], context menu),

    followed by the properties established about them.

    Conventions of the embedding.

    - A JavaScript [number] is an exact rational ([Qc], canonical fractions, so
      that equality of numbers is Leibniz equality).  Rounding, [NaN] and the
      sign of zero are outside the model.
    - An optional field ([fx?: number]) is an [option]; [None] is [undefined].
    - Node objects that the canvas mutates in place live in an explicit object
      store ([heap]); arrays of such objects are lists of references.
    - Calls to the backend are modelled by their outcome ([ApiReply]), an input
      of the handler that awaits them.
    - The console is the list of the lines passed to [console.warn] and
      [console.error]. *)

From Stdlib Require Import QArith Qcanon Lqa Sorted.
From stdpp Require Import gmap strings list.

Open Scope string_scope.

(** ** JavaScript values *)

Module JS.

Definition number := Qc.

Definition num (q : Q) : number := Q2Qc q.

(** [s || d] for an optional string: a missing or empty string is falsy. *)
Definition or_string (s : option string) (d : string) : string :=
  match s with
  | Some v => if String.eqb v EmptyString then d else v
  | None => d
  end.

(** [v || 0] for an optional number: [undefined] and [0] are falsy. *)
Definition or_zero (v : option number) : number :=
  match v with
  | Some q => if bool_decide (q = 0%Qc) then 0%Qc else q
  | None => 0%Qc
  end.

Arguments or_zero : simpl never.

(** [Math.min] *)
Definition min (a b : number) : number :=
  if Qclt_le_dec b a then b else a.

(** Outcome of an awaited backend call: the promise resolves or rejects. *)
Inductive ApiReply (A : Type) : Type :=
| Resolved (a : A)
| Rejected (message : string).
Arguments Resolved {A} a.
Arguments Rejected {A} message.

End JS.

(** ** Data model ([src/types/graph.d.ts]) *)

(** [GraphNode], and [ForceGraphNode] which extends it with the optional
    simulation fields [vx], [vy], [index].  A backend [GraphNode] is the record
    whose simulation fields are absent. *)
Record ForceGraphNode := mkNode {
  n_id : string;
  n__id : option string;
  n_label : string;
  n_type : string;
  n_properties : list (string * string);
  n_x : JS.number;
  n_y : JS.number;
  n_fx : option JS.number;
  n_fy : option JS.number;
  n_createdAt : option string;
  n_updatedAt : option string;
  n_vx : option JS.number;
  n_vy : option JS.number;
  n_index : option nat
}.

Abbreviation GraphNode := ForceGraphNode (only parsing).

Record GraphEdge := mkEdge {
  e_id : string;
  e__id : option string;
  e_source : string;
  e_target : string;
  e_label : string;
  e_properties : list (string * string);
  e_directed : bool;
  e_createdAt : option string;
  e_updatedAt : option string
}.

Record GraphData := mkGraphData {
  gd_nodes : list GraphNode;
  gd_edges : list GraphEdge
}.

(** [ForceGraphEdge]: the endpoints are node objects, not ids. *)
Record ForceGraphEdge := mkLink {
  l_id : string;
  l__id : option string;
  l_source : ForceGraphNode;
  l_target : ForceGraphNode;
  l_label : string;
  l_properties : list (string * string);
  l_directed : bool;
  l_createdAt : option string;
  l_updatedAt : option string
}.

Record ForceGraphData := mkForceGraphData {
  fg_nodes : list ForceGraphNode;
  fg_links : list ForceGraphEdge
}.

(** [SelectedItem]: [{ type: 'node' | 'edge'; item }]. *)
Inductive SelectedItem :=
| SelNode (item : GraphNode)
| SelEdge (item : GraphEdge).

Definition item_label (s : SelectedItem) : string :=
  match s with
  | SelNode n => n_label n
  | SelEdge e => e_label e
  end.

Global Instance number_eq_dec : EqDecision JS.number := Qc_eq_dec.
Global Instance ForceGraphNode_eq_dec : EqDecision ForceGraphNode.
Proof. solve_decision. Defined.
Global Instance GraphEdge_eq_dec : EqDecision GraphEdge.
Proof. solve_decision. Defined.
Global Instance ForceGraphEdge_eq_dec : EqDecision ForceGraphEdge.
Proof. solve_decision. Defined.
Global Instance SelectedItem_eq_dec : EqDecision SelectedItem.
Proof. solve_decision. Defined.

(** Record updates used by the object spreads of the source. *)
Definition with_id (i : string) (n : ForceGraphNode) : ForceGraphNode :=
  mkNode i (n__id n) (n_label n) (n_type n) (n_properties n) (n_x n) (n_y n)
         (n_fx n) (n_fy n) (n_createdAt n) (n_updatedAt n)
         (n_vx n) (n_vy n) (n_index n).

(** ** GraphView: conversion of a backend snapshot *)

Module GraphView.

(** [{ ...node, id: node._id || node.id }] *)
Definition toForceNode (node : GraphNode) : ForceGraphNode :=
  with_id (JS.or_string (n__id node) (n_id node)) node.

(** The [nodeMap] after the [data.nodes.map] callback has run over every
    node: [Map.set] overwrites, so the last node with a given id wins. *)
Definition buildNodeMap (nodes : list ForceGraphNode)
  : gmap string ForceGraphNode :=
  foldl (fun m forceNode => <[n_id forceNode := forceNode]> m) ∅ nodes.

Definition warning (edge : GraphEdge) : string :=
  "Edge references non-existent node: " ++ e_source edge ++ " -> "
    ++ e_target edge.

(** The [data.edges.map] callback: the link, or [null] with a warning. *)
Definition toLink (nodeMap : gmap string ForceGraphNode) (edge : GraphEdge)
  : option ForceGraphEdge * list string :=
  match nodeMap !! e_source edge, nodeMap !! e_target edge with
  | Some sourceNode, Some targetNode =>
      (Some (mkLink (JS.or_string (e__id edge) (e_id edge)) (e__id edge)
                    sourceNode targetNode (e_label edge)
                    (e_properties edge) (e_directed edge)
                    (e_createdAt edge) (e_updatedAt edge)), [])
  | _, _ => (None, [warning edge])
  end.

(** [convertToForceGraphData]: the converted data and the lines passed to
    [console.warn], in order. *)
Definition convertToForceGraphData (data : GraphData)
  : ForceGraphData * list string :=
  let nodes := map toForceNode (gd_nodes data) in
  let nodeMap := buildNodeMap nodes in
  let mapped := map (toLink nodeMap) (gd_edges data) in
  (mkForceGraphData nodes (omap fst mapped), concat (map snd mapped)).

(** *** Component state

    The [useState] cells of [GraphView] that the handlers below read or
    write, the [hasLoadedInitialData] ref, and the console.  The [onConfirm]
    closure of the confirmation dialog is represented by the selection it
    captured when [handleDeleteItem] built it ([None] is the initial
    [() => {}]). *)
Record ConfirmModalState := mkConfirmModal {
  cm_isOpen : bool;
  cm_title : string;
  cm_message : string;
  cm_onConfirm : option SelectedItem
}.

Record State := mkState {
  graphData : ForceGraphData;
  selectedItem : option SelectedItem;
  isPropertiesPanelOpen : bool;
  isLoading : bool;
  error : option string;
  confirmModal : ConfirmModalState;
  hasLoadedInitialData : bool;
  console : list string
}.

Definition initialState : State :=
  mkState (mkForceGraphData [] []) None false true None
          (mkConfirmModal false EmptyString EmptyString None) false [].

Definition setGraphData (g : ForceGraphData) (st : State) : State :=
  mkState g (selectedItem st) (isPropertiesPanelOpen st) (isLoading st)
          (error st) (confirmModal st) (hasLoadedInitialData st) (console st).

Definition setSelectedItem (s : option SelectedItem) (st : State) : State :=
  mkState (graphData st) s (isPropertiesPanelOpen st) (isLoading st)
          (error st) (confirmModal st) (hasLoadedInitialData st) (console st).

Definition setIsPropertiesPanelOpen (b : bool) (st : State) : State :=
  mkState (graphData st) (selectedItem st) b (isLoading st)
          (error st) (confirmModal st) (hasLoadedInitialData st) (console st).

Definition setIsLoading (b : bool) (st : State) : State :=
  mkState (graphData st) (selectedItem st) (isPropertiesPanelOpen st) b
          (error st) (confirmModal st) (hasLoadedInitialData st) (console st).

Definition setError (e : option string) (st : State) : State :=
  mkState (graphData st) (selectedItem st) (isPropertiesPanelOpen st)
          (isLoading st) e (confirmModal st) (hasLoadedInitialData st)
          (console st).

Definition setConfirmModal (c : ConfirmModalState) (st : State) : State :=
  mkState (graphData st) (selectedItem st) (isPropertiesPanelOpen st)
          (isLoading st) (error st) c (hasLoadedInitialData st) (console st).

Definition setHasLoaded (b : bool) (st : State) : State :=
  mkState (graphData st) (selectedItem st) (isPropertiesPanelOpen st)
          (isLoading st) (error st) (confirmModal st) b (console st).

Definition consoleLog (lines : list string) (st : State) : State :=
  mkState (graphData st) (selectedItem st) (isPropertiesPanelOpen st)
          (isLoading st) (error st) (confirmModal st)
          (hasLoadedInitialData st) (console st ++ lines).

(** [loadGraphData]; [reply] is the outcome of [graphApi.getGraph()]. *)
Definition loadGraphData (reply : JS.ApiReply GraphData) (st : State)
  : State :=
  if hasLoadedInitialData st then st
  else
    let st := setError None (setIsLoading true (setHasLoaded true st)) in
    let st :=
      match reply with
      | JS.Resolved data =>
          let '(forceGraphData, warnings) := convertToForceGraphData data in
          setGraphData forceGraphData (consoleLog warnings st)
      | JS.Rejected message =>
          setHasLoaded false
            (setError (Some message)
               (consoleLog ["Failed to load graph: " ++ message] st))
      end in
    setIsLoading false st.

(** [handleCreateNode], the [onBackgroundClick] handler; [reply] is the
    outcome of [graphApi.createNode]. *)
Definition handleCreateNode (event : JS.number * JS.number)
    (reply : JS.ApiReply GraphNode) (st : State) : State :=
  match reply with
  | JS.Resolved newNode =>
      let forceNode := toForceNode newNode in
      let prev := graphData st in
      let st :=
        setGraphData
          (mkForceGraphData (fg_nodes prev ++ [forceNode]) (fg_links prev))
          st in
      setIsPropertiesPanelOpen true (setSelectedItem (Some (SelNode newNode)) st)
  | JS.Rejected message =>
      setError (Some "Failed to create node")
        (consoleLog ["Failed to create node: " ++ message] st)
  end.

(** [handleNodeClick] *)
Definition handleNodeClick (node : ForceGraphNode) (st : State) : State :=
  setIsPropertiesPanelOpen true (setSelectedItem (Some (SelNode node)) st).

(** [handleEdgeClick]: the link is converted back to a basic edge. *)
Definition toBasicEdge (edge : ForceGraphEdge) : GraphEdge :=
  mkEdge (l_id edge) (l__id edge) (n_id (l_source edge))
         (n_id (l_target edge)) (l_label edge) (l_properties edge)
         (l_directed edge) (l_createdAt edge) (l_updatedAt edge).

Definition handleEdgeClick (edge : ForceGraphEdge) (st : State) : State :=
  setIsPropertiesPanelOpen true
    (setSelectedItem (Some (SelEdge (toBasicEdge edge))) st).

(** [handleNodeDrag]: the dragged node is replaced by a copy carrying the
    reported position and pin. *)
Definition withPosition (node n : ForceGraphNode) : ForceGraphNode :=
  mkNode (n_id n) (n__id n) (n_label n) (n_type n) (n_properties n)
         (n_x node) (n_y node) (n_fx node) (n_fy node)
         (n_createdAt n) (n_updatedAt n) (n_vx n) (n_vy n) (n_index n).

Definition handleNodeDrag (node : ForceGraphNode) (st : State) : State :=
  let prev := graphData st in
  setGraphData
    (mkForceGraphData
       (map (fun n => if String.eqb (n_id n) (n_id node)
                      then withPosition node n else n) (fg_nodes prev))
       (fg_links prev))
    st.

(** [handleNodeDragEnd]: the arguments handed to
    [debouncedUpdateNodePosition]. *)
Definition handleNodeDragEnd (node : ForceGraphNode)
  : string * JS.number * JS.number :=
  (n_id node, n_x node, n_y node).

(** [handleDeleteItem]: opens the confirmation dialog for the selection. *)
Definition handleDeleteItem (st : State) : State :=
  match selectedItem st with
  | None => st
  | Some sel =>
      let isNode := match sel with SelNode _ => true | SelEdge _ => false end in
      let itemName := if isNode then "node" else "edge" in
      let itemLabel := if String.eqb (item_label sel) EmptyString
                       then "Unnamed" else item_label sel in
      setConfirmModal
        (mkConfirmModal true ("Delete " ++ itemName)
           ("Are you sure you want to delete the " ++ itemName ++ " "
              ++ String (Ascii.ascii_of_nat 34) itemLabel
              ++ String (Ascii.ascii_of_nat 34) "?"
              ++ (if isNode then " This will also delete all connected edges."
                  else EmptyString))
           (Some sel))
        st
  end.

(** The [onConfirm] closure built by [handleDeleteItem]; [reply] is the
    outcome of [graphApi.deleteNode] or [graphApi.deleteEdge]. *)
Definition onConfirm (reply : JS.ApiReply unit) (st : State) : State :=
  match cm_onConfirm (confirmModal st) with
  | None => st
  | Some sel =>
      match reply with
      | JS.Resolved _ =>
          let prev := graphData st in
          let st :=
            match sel with
            | SelNode item =>
                setGraphData
                  (mkForceGraphData
                     (filter (fun node => n_id node ≠ n_id item)
                             (fg_nodes prev))
                     (filter (fun link => n_id (l_source link) ≠ n_id item
                                          ∧ n_id (l_target link) ≠ n_id item)
                             (fg_links prev)))
                  st
            | SelEdge item =>
                setGraphData
                  (mkForceGraphData
                     (fg_nodes prev)
                     (filter (fun link => l_id link ≠ e_id item)
                             (fg_links prev)))
                  st
            end in
          let cm := confirmModal st in
          setConfirmModal
            (mkConfirmModal false (cm_title cm) (cm_message cm)
                            (cm_onConfirm cm))
            (setIsPropertiesPanelOpen false (setSelectedItem None st))
      | JS.Rejected message =>
          let itemName :=
            match sel with SelNode _ => "node" | SelEdge _ => "edge" end in
          setError (Some ("Failed to delete " ++ itemName))
            (consoleLog ["Failed to delete " ++ itemName ++ ": " ++ message]
                        st)
      end
  end.

(** [handleDeleteEdgeFromContext], the [onDeleteEdge] handler. *)
Definition handleDeleteEdgeFromContext (edgeId : string)
    (reply : JS.ApiReply unit) (st : State) : State :=
  match reply with
  | JS.Resolved _ =>
      let prev := graphData st in
      let st' :=
        setGraphData
          (mkForceGraphData (fg_nodes prev)
             (filter (fun link => l_id link ≠ edgeId) (fg_links prev)))
          st in
      match selectedItem st with
      | Some (SelEdge item) =>
          if String.eqb (e_id item) edgeId
          then setIsPropertiesPanelOpen false (setSelectedItem None st')
          else st'
      | _ => st'
      end
  | JS.Rejected message =>
      setError (Some "Failed to delete edge")
        (consoleLog ["Failed to delete edge: " ++ message] st)
  end.

(** [handleClosePropertiesPanel] and [handleCloseConfirmModal] *)
Definition handleClosePropertiesPanel (st : State) : State :=
  setSelectedItem None (setIsPropertiesPanelOpen false st).

Definition handleCloseConfirmModal (st : State) : State :=
  let cm := confirmModal st in
  setConfirmModal
    (mkConfirmModal false (cm_title cm) (cm_message cm) (cm_onConfirm cm)) st.

(** *** User actions reaching [GraphView]

    The wiring of the JSX: the canvas props [onNodeClick], [onEdgeClick],
    [onBackgroundClick], [onDeleteEdge]; the panel props [onClose],
    [onDeleteItem]; the dialog props [onConfirm], [onCancel].  An action
    that awaits the backend carries the outcome of the call. *)
Inductive Action :=
| NodeClick (node : ForceGraphNode)
| EdgeClick (edge : ForceGraphEdge)
| BackgroundClick (x y : JS.number) (reply : JS.ApiReply GraphNode)
| DeleteItem
| ConfirmDelete (reply : JS.ApiReply unit)
| CancelDelete
| UnlinkEdge (edgeId : string) (reply : JS.ApiReply unit)
| ClosePanel.

Definition dispatch (a : Action) (st : State) : State :=
  match a with
  | NodeClick node => handleNodeClick node st
  | EdgeClick edge => handleEdgeClick edge st
  | BackgroundClick x y reply => handleCreateNode (x, y) reply st
  | DeleteItem => handleDeleteItem st
  | ConfirmDelete reply => onConfirm reply st
  | CancelDelete => handleCloseConfirmModal st
  | UnlinkEdge edgeId reply => handleDeleteEdgeFromContext edgeId reply st
  | ClosePanel => handleClosePropertiesPanel st
  end.

End GraphView.

(** ** The position persistence bridge ([src/api/apiClient.ts]) *)

Module ApiClient.

(** *** Timers of the JavaScript runtime

    Time is counted in milliseconds.  [setTimeout] queues a timer due
    [delay] ms after the current instant and returns its id; [clearTimeout]
    cancels the timer with the given id and ignores [undefined] and ids
    that are no longer queued.  The event loop runs a queued timer once its
    due time is reached; timers of one delay are queued, and run, in the
    order of their creation. *)
Section Timers.
Context {A : Type}.

Record Timer := mkTimer {
  t_id : nat;
  t_due : nat;
  t_args : A
}.

Record Timers := mkTimers {
  now : nat;
  nextId : nat;
  queue : list Timer
}.

Definition setTimeout (args : A) (delay : nat) (tm : Timers) : nat * Timers :=
  (nextId tm,
   mkTimers (now tm) (S (nextId tm))
            (queue tm ++ [mkTimer (nextId tm) (now tm + delay) args])).

Definition clearTimeout (timeoutId : option nat) (tm : Timers) : Timers :=
  match timeoutId with
  | None => tm
  | Some i =>
      mkTimers (now tm) (nextId tm)
               (filter (fun t => t_id t ≠ i) (queue tm))
  end.

(** *** [debounce]

    The state of one debounced function: the closure variable [timeoutId],
    the runtime's timers, and the calls of the wrapped [func] made so far,
    each with the instant at which it ran. *)
Record Debounced := mkDebounced {
  timeoutId : option nat;
  timers : Timers;
  calls : list (nat * A)
}.

Definition fresh : Debounced := mkDebounced None (mkTimers 0 0 []) [].

(** The function returned by [debounce(func, delay)], called with [args]. *)
Definition debounced (delay : nat) (args : A) (d : Debounced) : Debounced :=
  let tm := clearTimeout (timeoutId d) (timers d) in
  let '(i, tm) := setTimeout args delay tm in
  mkDebounced (Some i) tm (calls d).

(** The event loop up to instant [t]: every queued timer that is due runs
    [func(...args)] and leaves the queue; the clock never runs backwards. *)
Definition elapse (t : nat) (d : Debounced) : Debounced :=
  let tm := timers d in
  let due := filter (fun x => (t_due x ≤ t)%nat) (queue tm) in
  let rest := filter (fun x => ¬ (t_due x ≤ t)%nat) (queue tm) in
  mkDebounced (timeoutId d)
              (mkTimers (now tm `max` t) (nextId tm) rest)
              (calls d ++ map (fun x => (t_due x, t_args x)) due).

(** A timed script of calls: before each call the loop runs up to the
    instant of the call. *)
Definition run (delay : nat) (script : list (nat * A)) (d : Debounced)
  : Debounced :=
  foldl (fun d c => debounced delay (snd c) (elapse (fst c) d)) d script.

(** A burst: the instants do not decrease and two consecutive calls are
    less than [delay] apart. *)
Fixpoint burst_from (delay t0 : nat) (ts : list nat) : Prop :=
  match ts with
  | [] => True
  | t :: ts => (t0 ≤ t)%nat ∧ (t < t0 + delay)%nat ∧ burst_from delay t ts
  end.

Definition burst (delay : nat) (ts : list nat) : Prop :=
  match ts with
  | [] => True
  | t :: ts => burst_from delay t ts
  end.

(** The state right after a call made at instant [t] with [args]: exactly
    that call is pending, due [delay] ms later. *)
Definition armed (delay t : nat) (args : A) (d : Debounced) : Prop :=
  ∃ i, queue (timers d) = [mkTimer i (t + delay) args]
       ∧ timeoutId d = Some i ∧ now (timers d) = t.

End Timers.

Arguments Timer : clear implicits.
Arguments Timers : clear implicits.
Arguments Debounced : clear implicits.

(** [debouncedUpdateNodePosition]: the wrapped function issues
    [graphApi.updateNode(id, { x, y })]; the delay is 500 ms. *)
Definition PositionUpdate : Type := string * JS.number * JS.number.

Definition DEBOUNCE_DELAY : nat := 500.

Definition debouncedUpdateNodePosition
  : PositionUpdate → Debounced PositionUpdate → Debounced PositionUpdate :=
  debounced DEBOUNCE_DELAY.

End ApiClient.

(** ** GraphCanvas *)

Module GraphCanvas.

(** [PHYSICS_CONFIG] ([src/types/constants.ts]), the entries the canvas
    reads when it drives the simulation. *)
Definition ALPHA_DECAY : JS.number := JS.num (15 # 1000).
Definition VELOCITY_DECAY : JS.number := JS.num (4 # 10).
Definition ALPHA_TARGET : JS.number := JS.num (5 # 100).
Definition REHEAT_STRENGTH : JS.number := JS.num (2 # 10).

(** The alpha target while a node is dragged, and the zoom limits handed to
    [d3.zoom().scaleExtent]. *)
Definition DRAG_ALPHA_TARGET : JS.number := JS.num (3 # 10).
Definition scaleExtent : JS.number * JS.number := (JS.num (1 # 10), JS.num 5).

(** Events raised through the props of the component. *)
Inductive Emitted :=
| OnNodeClick (node : ForceGraphNode)
| OnEdgeClick (edge : ForceGraphEdge)
| OnBackgroundClick (x y : JS.number)
| OnNodeDrag (node : ForceGraphNode)
| OnNodeDragEnd (node : ForceGraphNode)
| OnCreateEdge (source target : string)
| OnDeleteEdge (edgeId : string).

(** *** Context menu: connected and unconnected nodes

    These functions read [data.nodes] and [data.links] and, of a node
    object, only its [id].  By the type [ForceGraphEdge] the endpoints of a
    link are node objects, so [typeof link.source === 'object'] holds and the
    endpoint id is [link.source.id]. *)
Record ConnectedInfo := mkConnectedInfo {
  ci_node : ForceGraphNode;
  ci_edgeId : string;
  ci_isSource : bool
}.

(** [nodes.find(n => n.id === id)] *)
Fixpoint findById (nodes : list ForceGraphNode) (i : string)
  : option ForceGraphNode :=
  match nodes with
  | [] => None
  | n :: nodes => if String.eqb (n_id n) i then Some n else findById nodes i
  end.

(** The body of the [forEach] of [getConnectedNodesInfo]: what one link
    pushes onto [connectedInfo]. *)
Definition connectedOf (nodes : list ForceGraphNode) (sourceNodeId : string)
    (link : ForceGraphEdge) : list ConnectedInfo :=
  let sourceId := n_id (l_source link) in
  let targetId := n_id (l_target link) in
  if String.eqb sourceId sourceNodeId then
    match findById nodes targetId with
    | Some targetNode => [mkConnectedInfo targetNode (l_id link) true]
    | None => []
    end
  else if String.eqb targetId sourceNodeId then
    match findById nodes sourceId with
    | Some sourceNode => [mkConnectedInfo sourceNode (l_id link) false]
    | None => []
    end
  else [].

Definition getConnectedNodesInfo (data : ForceGraphData)
    (sourceNodeId : string) : list ConnectedInfo :=
  foldl (fun connectedInfo link =>
           (connectedInfo ++ connectedOf (fg_nodes data) sourceNodeId link)%list)
        [] (fg_links data).

(** The [Set] filled by the [forEach] of [getUnconnectedNodes]. *)
Definition connectedNodeIds (data : ForceGraphData) (sourceNodeId : string)
  : gset string :=
  foldl (fun ids link =>
           let sourceId := n_id (l_source link) in
           let targetId := n_id (l_target link) in
           if String.eqb sourceId sourceNodeId then {[targetId]} ∪ ids
           else if String.eqb targetId sourceNodeId then {[sourceId]} ∪ ids
           else ids)
        ∅ (fg_links data).

Definition getUnconnectedNodes (data : ForceGraphData)
    (sourceNodeId : string) : list ForceGraphNode :=
  filter (fun node => n_id node ≠ sourceNodeId
                      ∧ n_id node ∉ connectedNodeIds data sourceNodeId)
         (fg_nodes data).

(** The [contextMenu] state cell and the two menu actions. *)
Record ContextMenu := mkContextMenu {
  show : bool;
  menu_x : JS.number;
  menu_y : JS.number;
  sourceNode : option ForceGraphNode;
  targetNode : option ForceGraphNode
}.

Definition closeMenu (prev : ContextMenu) : ContextMenu :=
  mkContextMenu false (menu_x prev) (menu_y prev) (sourceNode prev)
                (targetNode prev).

Definition handleCreateEdgeFromContext (target : ForceGraphNode)
    (contextMenu : ContextMenu) : list Emitted * ContextMenu :=
  let emitted :=
    match sourceNode contextMenu with
    | Some source =>
        if negb (String.eqb (n_id target) (n_id source))
        then [OnCreateEdge (n_id source) (n_id target)]
        else []
    | None => []
    end in
  (emitted, closeMenu contextMenu).

Definition handleUnlinkEdge (edgeId : string) (contextMenu : ContextMenu)
  : list Emitted * ContextMenu :=
  ([OnDeleteEdge edgeId], closeMenu contextMenu).

(** The click handler of the svg element: a click whose target is the svg
    itself reports its world coordinates. *)
Definition svgClick (onBackground : bool) (pointer : JS.number * JS.number)
  : list Emitted :=
  if onBackground then [OnBackgroundClick (fst pointer) (snd pointer)] else [].

(** *** View transform

    [d3.ZoomTransform] with its methods [translate] and [scale], as d3-zoom
    defines them.  [zoom.transform(selection, t)] installs [t] as it is: the
    scale extent constrains wheel and pinch gestures and [scaleBy]/[scaleTo],
    not a transform set explicitly.  The transition that animates the change
    ends at the requested transform, which is what the model records. *)
Record ZoomTransform := mkTransform {
  k : JS.number;
  tx : JS.number;
  ty : JS.number
}.

Definition zoomIdentity : ZoomTransform := mkTransform 1%Qc 0%Qc 0%Qc.

Definition translate (x y : JS.number) (t : ZoomTransform) : ZoomTransform :=
  mkTransform (k t) (tx t + k t * x)%Qc (ty t + k t * y)%Qc.

Definition scale (s : JS.number) (t : ZoomTransform) : ZoomTransform :=
  mkTransform (k t * s)%Qc (tx t) (ty t).

Definition inScaleExtent (s : JS.number) : Prop :=
  (fst scaleExtent <= s)%Qc ∧ (s <= snd scaleExtent)%Qc.

(** The result of [getBBox()] on the container. *)
Record BBox := mkBBox {
  bbox_x : JS.number;
  bbox_y : JS.number;
  bbox_width : JS.number;
  bbox_height : JS.number
}.

Global Instance ZoomTransform_eq_dec : EqDecision ZoomTransform.
Proof. solve_decision. Defined.

(** *** Object store and simulation

    The node objects of [data.nodes] are shared between the host, the
    simulation and the drag handlers, and are assigned in place.  They live
    in a store indexed by reference; [data.nodes] and [simulation.nodes()]
    are arrays of references. *)
Abbreviation loc := nat (only parsing).
Abbreviation heap := (list ForceGraphNode) (only parsing).

Record Simulation := mkSimulation {
  sim_nodes : list loc;
  sim_alpha : JS.number;
  sim_alphaTarget : JS.number;
  sim_running : bool
}.

(** [d3.forceSimulation().alphaDecay(..).velocityDecay(..).alphaTarget(..)] *)
Definition forceSimulation : Simulation :=
  mkSimulation [] 1%Qc ALPHA_TARGET true.

(** The assignable fields of a node object; the other fields are kept. *)
Definition withMotion (x y : JS.number) (fx fy vx vy : option JS.number)
    (index : option nat) (n : ForceGraphNode) : ForceGraphNode :=
  mkNode (n_id n) (n__id n) (n_label n) (n_type n) (n_properties n) x y fx fy
         (n_createdAt n) (n_updatedAt n) vx vy index.

Definition pin (fx fy : option JS.number) (n : ForceGraphNode)
  : ForceGraphNode :=
  withMotion (n_x n) (n_y n) fx fy (n_vx n) (n_vy n) (n_index n) n.

(** [nodes.find((n) => n.id === id)] on an array of references: the first
    reference whose object has the id, with the object. *)
Fixpoint find_node (h : heap) (nodes : list loc) (i : string)
  : option (loc * ForceGraphNode) :=
  match nodes with
  | [] => None
  | l :: nodes =>
      match h !! l with
      | Some n => if String.eqb (n_id n) i then Some (l, n)
                  else find_node h nodes i
      | None => find_node h nodes i
      end
  end.

(** The six assignments made to [newNode] when [existingNode] is found. *)
Definition carry (existingNode newNode : ForceGraphNode) : ForceGraphNode :=
  withMotion (n_x existingNode) (n_y existingNode)
             (n_fx existingNode) (n_fy existingNode)
             (Some (JS.or_zero (n_vx existingNode)))
             (Some (JS.or_zero (n_vy existingNode)))
             (n_index newNode) newNode.

(** The callback of [newNodes.forEach], and the whole loop. *)
Definition preserveNode (existingNodes : list loc) (h : heap) (newNode : loc)
  : heap :=
  match h !! newNode with
  | Some n =>
      match find_node h existingNodes (n_id n) with
      | Some (_, existingNode) => <[newNode := carry existingNode n]> h
      | None => h
      end
  | None => h
  end.

Definition preserveExisting (existingNodes newNodes : list loc) (h : heap)
  : heap :=
  foldl (preserveNode existingNodes) h newNodes.

(** Assignment to the fields of the object behind a reference, and a loop
    over an array of references that assigns to each object in turn
    ([i] counts the iterations). *)
Definition assign (d : loc) (f : ForceGraphNode → ForceGraphNode) (h : heap)
  : heap :=
  match h !! d with
  | Some n => <[d := f n]> h
  | None => h
  end.

Fixpoint forEachNode (f : nat → ForceGraphNode → ForceGraphNode) (i : nat)
    (nodes : list loc) (h : heap) : heap :=
  match nodes with
  | [] => h
  | l :: nodes => forEachNode f (S i) nodes (assign l (f i) h)
  end.

(** [simulation.nodes(newNodes)] as d3-force initialises the nodes it is
    given: the index is assigned, a pinned coordinate is copied into the
    position, and a node without velocity starts at rest. *)
Definition initializeNode (i : nat) (n : ForceGraphNode) : ForceGraphNode :=
  let v := match n_vx n, n_vy n with
           | Some vx, Some vy => (vx, vy)
           | _, _ => (0%Qc, 0%Qc)
           end in
  withMotion (default (n_x n) (n_fx n)) (default (n_y n) (n_fy n))
             (n_fx n) (n_fy n) (Some (fst v)) (Some (snd v)) (Some i) n.

Definition initializeNodes (nodes : list loc) (h : heap) : heap :=
  forEachNode initializeNode 0 nodes h.

(** One step of the simulation as d3-force runs it: alpha moves towards its
    target, the forces update the velocities, then a free coordinate
    advances by its decayed velocity while a pinned coordinate is reset to
    the pin with zero velocity.  The forces are a parameter: the velocity
    they leave on a node, given alpha and the registered nodes. *)
Definition Forces : Type :=
  JS.number → list ForceGraphNode → ForceGraphNode → JS.number * JS.number.

Definition advance (v p : JS.number) (f : option JS.number)
  : JS.number * JS.number :=
  match f with
  | None => let v' := (v * (1 - VELOCITY_DECAY))%Qc in ((p + v')%Qc, v')
  | Some fixed => (fixed, 0%Qc)
  end.

Definition moveNode (v : JS.number * JS.number) (n : ForceGraphNode)
  : ForceGraphNode :=
  let mx := advance (fst v) (n_x n) (n_fx n) in
  let my := advance (snd v) (n_y n) (n_fy n) in
  withMotion (fst mx) (fst my) (n_fx n) (n_fy n)
             (Some (snd mx)) (Some (snd my)) (n_index n) n.

(** *** The component

    [mounted] says that the initialisation effect has run, so that [svgRef],
    [containerRef], [zoomRef] and [simulationRef] are set.  The functions the
    data effect stores in the host's refs [onFitToScreen] and
    [onCenterOnNode] are closures; each is represented by its kind and the
    values it captured. *)
Inductive FitHandle :=
| FitUnset
| EmptyFit (width height : JS.number)
| GraphFit (width height : JS.number).

Inductive CenterHandle :=
| CenterUnset
| EmptyCenter
| GraphCenter (nodes : list loc) (width height : JS.number).

Record Canvas := mkCanvas {
  store : heap;
  simulation : Simulation;
  mounted : bool;
  currentTransform : ZoomTransform;
  dimensions : JS.number * JS.number;
  onFitToScreen : FitHandle;
  onCenterOnNode : CenterHandle
}.

Definition setStore (h : heap) (c : Canvas) : Canvas :=
  mkCanvas h (simulation c) (mounted c) (currentTransform c) (dimensions c)
           (onFitToScreen c) (onCenterOnNode c).

Definition setSimulation (s : Simulation) (c : Canvas) : Canvas :=
  mkCanvas (store c) s (mounted c) (currentTransform c) (dimensions c)
           (onFitToScreen c) (onCenterOnNode c).

Definition setTransform (t : ZoomTransform) (c : Canvas) : Canvas :=
  mkCanvas (store c) (simulation c) (mounted c) t (dimensions c)
           (onFitToScreen c) (onCenterOnNode c).

Definition setHandles (f : FitHandle) (g : CenterHandle) (c : Canvas)
  : Canvas :=
  mkCanvas (store c) (simulation c) (mounted c) (currentTransform c)
           (dimensions c) f g.

(** The initialisation effect, run on mount and whenever the dimensions
    change: a new simulation without nodes. *)
Definition initialise (width height : JS.number) (c : Canvas) : Canvas :=
  mkCanvas (store c) forceSimulation true (currentTransform c)
           (width, height) (onFitToScreen c) (onCenterOnNode c).

Definition emptyCanvas : Canvas :=
  mkCanvas [] forceSimulation false zoomIdentity (JS.num 800, JS.num 600)
           FitUnset CenterUnset.

Definition tick (forces : Forces) (c : Canvas) : Canvas :=
  let sim := simulation c in
  let alpha :=
    (sim_alpha sim + (sim_alphaTarget sim - sim_alpha sim) * ALPHA_DECAY)%Qc in
  let registered := omap (fun l => store c !! l) (sim_nodes sim) in
  let h :=
    forEachNode (fun _ n => moveNode (forces alpha registered n) n) 0
                (sim_nodes sim) (store c) in
  setSimulation
    (mkSimulation (sim_nodes sim) alpha (sim_alphaTarget sim)
                  (sim_running sim))
    (setStore h c).

(** *** Camera operations *)

(** [fitToScreen], closed over [dimensions]; [bounds] is what
    [container.node()?.getBBox()] returns at the call. *)
Definition fitToScreen (fullWidth fullHeight : JS.number)
    (bounds : option BBox) (c : Canvas) : Canvas :=
  if negb (mounted c) then c
  else
    match bounds with
    | Some b =>
        if Qclt_le_dec 0 (bbox_width b) then
          if Qclt_le_dec 0 (bbox_height b) then
            let widthScale := (fullWidth / bbox_width b)%Qc in
            let heightScale := (fullHeight / bbox_height b)%Qc in
            let scale_ := (JS.min widthScale heightScale * JS.num (8 # 10))%Qc in
            let translate0 :=
              (fullWidth / JS.num 2
               - scale_ * (bbox_x b + bbox_width b / JS.num 2))%Qc in
            let translate1 :=
              (fullHeight / JS.num 2
               - scale_ * (bbox_y b + bbox_height b / JS.num 2))%Qc in
            setTransform
              (scale scale_ (translate translate0 translate1 zoomIdentity)) c
          else c
        else c
    | None => c
    end.

(** [emptyFitFunction] and [emptyCenterFunction], stored when
    [data.nodes] is empty. *)
Definition emptyFitFunction (width height : JS.number) (c : Canvas)
  : Canvas :=
  if mounted c then
    setTransform
      (scale 1%Qc
         (translate (width / JS.num 2)%Qc (height / JS.num 2)%Qc
                    zoomIdentity))
      c
  else c.

Definition emptyCenterFunction (nodeId : string) (c : Canvas) : Canvas := c.

(** [centerOnNode], closed over [data.nodes] and [dimensions].  A node
    object of the model always has numeric [x] and [y], so the fallbacks for
    a position that is not a number are never taken. *)
Definition centerOnNode (nodes : list loc) (width height : JS.number)
    (nodeId : string) (c : Canvas) : Canvas :=
  if negb (mounted c) then c
  else
    match find_node (store c) nodes nodeId with
    | Some (_, target) =>
        let nodeX := JS.or_zero (Some (n_x target)) in
        let nodeY := JS.or_zero (Some (n_y target)) in
        let scale_ := JS.num (15 # 10) in
        setTransform
          (scale scale_
             (translate (width / JS.num 2 - scale_ * nodeX)%Qc
                        (height / JS.num 2 - scale_ * nodeY)%Qc
                        zoomIdentity))
          c
    | None => c
    end.

(** The host calling through its refs: [fitToScreenRef.current?.()] and
    [centerOnNodeRef.current?.(nodeId)]. *)
Definition invokeFitToScreen (bounds : option BBox) (c : Canvas) : Canvas :=
  match onFitToScreen c with
  | FitUnset => c
  | EmptyFit w h => emptyFitFunction w h c
  | GraphFit w h => fitToScreen w h bounds c
  end.

Definition invokeCenterOnNode (nodeId : string) (c : Canvas) : Canvas :=
  match onCenterOnNode c with
  | CenterUnset => c
  | EmptyCenter => emptyCenterFunction nodeId c
  | GraphCenter nodes w h => centerOnNode nodes w h nodeId c
  end.

(** *** The data effect

    Run for every new [data] prop.  With no node the drawn groups are
    removed, the empty camera functions are stored and the simulation is
    left as it is.  Otherwise the positions of known nodes are preserved,
    the nodes are registered and a cold simulation is reheated. *)
Definition registerNodes (nodes : list loc) (sim : Simulation) : Simulation :=
  mkSimulation nodes (sim_alpha sim) (sim_alphaTarget sim) (sim_running sim).

Definition reheat (sim : Simulation) : Simulation :=
  if Qclt_le_dec (sim_alpha sim) ALPHA_TARGET
  then mkSimulation (sim_nodes sim) REHEAT_STRENGTH (sim_alphaTarget sim) true
  else sim.

Definition updateData (data : list loc) (c : Canvas) : Canvas :=
  if negb (mounted c) then c
  else
    let '(w, h) := dimensions c in
    match data with
    | [] => setHandles (EmptyFit w h) EmptyCenter c
    | _ =>
        let simulation := simulation c in
        let existingNodes := sim_nodes simulation in
        let newNodes := data in
        let store1 := preserveExisting existingNodes newNodes (store c) in
        let store2 := initializeNodes newNodes store1 in
        setHandles (GraphFit w h) (GraphCenter data w h)
          (setSimulation (reheat (registerNodes newNodes simulation))
                         (setStore store2 c))
    end.

(** *** Drag handlers

    The event of d3-drag: the position of the subject under the pointer in
    the coordinates of the container, and [active], the number of other
    drag gestures in progress.  The handlers receive the node object bound
    to the dragged circle, here by reference. *)
Record DragEvent := mkDragEvent {
  ev_x : JS.number;
  ev_y : JS.number;
  ev_active : nat
}.

Definition emit (h : heap) (d : loc) (e : ForceGraphNode → Emitted)
  : list Emitted :=
  match h !! d with
  | Some n => [e n]
  | None => []
  end.

Definition dragStart (event : DragEvent) (d : loc) (c : Canvas) : Canvas :=
  let sim := simulation c in
  let sim :=
    match ev_active event with
    | O => mkSimulation (sim_nodes sim) (sim_alpha sim) DRAG_ALPHA_TARGET true
    | S _ => sim
    end in
  setSimulation sim
    (setStore (assign d (fun n => pin (Some (n_x n)) (Some (n_y n)) n)
                      (store c)) c).

Definition drag (event : DragEvent) (d : loc) (c : Canvas)
  : list Emitted * Canvas :=
  let h := assign d (pin (Some (ev_x event)) (Some (ev_y event))) (store c) in
  (emit h d OnNodeDrag, setStore h c).

Definition dragEnd (event : DragEvent) (d : loc) (c : Canvas)
  : list Emitted * Canvas :=
  let sim := simulation c in
  let sim :=
    match ev_active event with
    | O => mkSimulation (sim_nodes sim) (sim_alpha sim) ALPHA_TARGET
                        (sim_running sim)
    | S _ => sim
    end in
  let h := assign d (fun n => pin (Some (n_x n)) (Some (n_y n)) n) (store c) in
  (emit h d OnNodeDragEnd, setSimulation sim (setStore h c)).

(** What can happen to the canvas once a gesture is over: a simulation
    step, or a new snapshot from the host.  The host never assigns to a
    node object; the objects it creates for a snapshot are new entries of
    the store. *)
Inductive Later :=
| Tick
| Snapshot (created : list ForceGraphNode) (data : list loc).

Definition later (forces : Forces) (e : Later) (c : Canvas) : Canvas :=
  match e with
  | Tick => tick forces c
  | Snapshot created data =>
      updateData data (setStore (store c ++ created)%list c)
  end.

Definition after (forces : Forces) (run : list Later) (c : Canvas) : Canvas :=
  foldl (fun c e => later forces e c) c run.



(** The simulation holds a node with id [a], pinned at [(px, py)] and
    standing there. *)
Definition pinnedAt (a : string) (px py : JS.number) (c : Canvas) : Prop :=
  ∃ l n, find_node (store c) (sim_nodes (simulation c)) a = Some (l, n)
         ∧ n_fx n = Some px ∧ n_fy n = Some py ∧ n_x n = px ∧ n_y n = py.

End GraphCanvas.

(** ** GraphView: creating and updating items *)

Module GraphViewEdit.
Import GraphView.

(** [handleCreateEdge], the [onCreateEdge] handler; [reply] is the outcome
    of [graphApi.createEdge].  The endpoints are looked up among the held
    nodes; a missing endpoint throws inside the [try], which ends in the
    same [catch] as a rejected call.  The timer that centres the canvas on
    the source node 200 ms later acts on the canvas, not on this state. *)
Definition handleCreateEdge (sourceId targetId : string)
    (reply : JS.ApiReply GraphEdge) (st : State) : State :=
  let failed message :=
    setError (Some "Failed to create edge")
      (consoleLog ["Failed to create edge: " ++ message] st) in
  match reply with
  | JS.Resolved newEdge =>
      match GraphCanvas.findById (fg_nodes (graphData st)) sourceId,
            GraphCanvas.findById (fg_nodes (graphData st)) targetId with
      | Some sourceNode, Some targetNode =>
          let forceEdge :=
            mkLink (JS.or_string (e__id newEdge) (e_id newEdge))
                   (e__id newEdge) sourceNode targetNode (e_label newEdge)
                   (e_properties newEdge) (e_directed newEdge)
                   (e_createdAt newEdge) (e_updatedAt newEdge) in
          let prev := graphData st in
          let st :=
            setGraphData
              (mkForceGraphData (fg_nodes prev) (fg_links prev ++ [forceEdge]))
              st in
          let basicEdge :=
            mkEdge (JS.or_string (e__id newEdge) (e_id newEdge))
                   (e__id newEdge) sourceId targetId (e_label newEdge)
                   (e_properties newEdge) (e_directed newEdge)
                   (e_createdAt newEdge) (e_updatedAt newEdge) in
          setIsPropertiesPanelOpen true
            (setSelectedItem (Some (SelEdge basicEdge)) st)
      | _, _ => failed "Source or target node not found"
      end
  | JS.Rejected message => failed message
  end.

(** [{ ...node, ...updatedNode }]: every field the reply has replaces the
    one of [node]; an optional field the reply lacks is kept. *)
Definition override {A : Type} (updated kept : option A) : option A :=
  match updated with
  | Some v => Some v
  | None => kept
  end.

Definition spreadNode (node updatedNode : ForceGraphNode) : ForceGraphNode :=
  mkNode (n_id updatedNode) (override (n__id updatedNode) (n__id node))
         (n_label updatedNode) (n_type updatedNode)
         (n_properties updatedNode) (n_x updatedNode) (n_y updatedNode)
         (override (n_fx updatedNode) (n_fx node))
         (override (n_fy updatedNode) (n_fy node))
         (override (n_createdAt updatedNode) (n_createdAt node))
         (override (n_updatedAt updatedNode) (n_updatedAt node))
         (override (n_vx updatedNode) (n_vx node))
         (override (n_vy updatedNode) (n_vy node))
         (override (n_index updatedNode) (n_index node)).

(** The link with the fields of the updated edge that the handler copies. *)
Definition relabel (updatedEdge : GraphEdge) (link : ForceGraphEdge)
  : ForceGraphEdge :=
  mkLink (l_id link) (l__id link) (l_source link) (l_target link)
         (e_label updatedEdge) (e_properties updatedEdge)
         (e_directed updatedEdge) (l_createdAt link) (e_updatedAt updatedEdge).

(** [handleUpdateItem]; [onNode] is the outcome of [graphApi.updateNode],
    awaited when a node is selected, and [onEdge] the outcome of
    [graphApi.updateEdge], awaited when an edge is selected. *)
Definition handleUpdateItem (onNode : JS.ApiReply GraphNode)
    (onEdge : JS.ApiReply GraphEdge) (st : State) : State :=
  let failed message :=
    setError (Some "Failed to update item")
      (consoleLog ["Failed to update item: " ++ message] st) in
  match selectedItem st with
  | None => st
  | Some (SelNode item) =>
      match onNode with
      | JS.Resolved updatedNode =>
          let updatedId :=
            JS.or_string (n__id updatedNode) (n_id updatedNode) in
          let prev := graphData st in
          let st :=
            setGraphData
              (mkForceGraphData
                 (map (fun node => if String.eqb (n_id node) updatedId
                                   then spreadNode node updatedNode else node)
                      (fg_nodes prev))
                 (fg_links prev))
              st in
          setSelectedItem (Some (SelNode (spreadNode item updatedNode))) st
      | JS.Rejected message => failed message
      end
  | Some (SelEdge item) =>
      match onEdge with
      | JS.Resolved updatedEdge =>
          let prev := graphData st in
          let st :=
            setGraphData
              (mkForceGraphData
                 (fg_nodes prev)
                 (map (fun link => if String.eqb (l_id link) (e_id updatedEdge)
                                   then relabel updatedEdge link else link)
                      (fg_links prev)))
              st in
          setSelectedItem (Some (SelEdge updatedEdge)) st
      | JS.Rejected message => failed message
      end
  end.

End GraphViewEdit.

(** ** GraphCanvas: styling by selection and search highlights *)

Module Styling.

(** The callbacks of the styling effect, for a circle bound to [d] and a
    line bound to [d]. *)
Definition isSelectedNode (selectedItem : option SelectedItem)
    (d : ForceGraphNode) : bool :=
  match selectedItem with
  | Some (SelNode item) => String.eqb (n_id item) (n_id d)
  | _ => false
  end.

Definition isHighlighted (searchHighlights : list string)
    (d : ForceGraphNode) : bool :=
  bool_decide (n_id d ∈ searchHighlights).

Definition nodeStroke (selectedItem : option SelectedItem)
    (searchHighlights : list string) (d : ForceGraphNode) : string :=
  if isSelectedNode selectedItem d then "#ffffff"
  else if isHighlighted searchHighlights d then "#f59e0b"
  else "#333".

Definition nodeStrokeWidth (selectedItem : option SelectedItem)
    (searchHighlights : list string) (d : ForceGraphNode) : nat :=
  if isSelectedNode selectedItem d || isHighlighted searchHighlights d
  then 3 else 1.

Definition isSelectedLink (selectedItem : option SelectedItem)
    (d : ForceGraphEdge) : bool :=
  match selectedItem with
  | Some (SelEdge item) => String.eqb (e_id item) (l_id d)
  | _ => false
  end.

Definition linkStroke (selectedItem : option SelectedItem)
    (d : ForceGraphEdge) : string :=
  if isSelectedLink selectedItem d then "#ffffff" else "#6b7280".

Definition linkStrokeWidth (selectedItem : option SelectedItem)
    (d : ForceGraphEdge) : nat :=
  if isSelectedLink selectedItem d then 3 else 2.

Definition linkMarkerEnd (selectedItem : option SelectedItem)
    (d : ForceGraphEdge) : option string :=
  if l_directed d then
    if isSelectedLink selectedItem d then Some "url(#arrowhead-selected)"
    else Some "url(#arrowhead)"
  else None.

End Styling.

(** ** GraphView: search

    [handleSearch] touches the search query, the highlights and the timer
    that centres the canvas, and nothing else of the view.  The string
    functions of the runtime ([trim], [toLowerCase], [localeCompare]) and
    [Array.prototype.sort] are parameters; [startsWith] is the prefix test.
    [reply] is the outcome of [graphApi.searchNodes(query)]. *)

Module GraphViewSearch.

Record SearchState := mkSearchState {
  searchQuery : string;
  searchHighlights : list string;
  centerRequests : list (nat * string)
}.

Section Builtins.
Variables trim toLowerCase : string → string.
Variable localeCompare : string → string → Z.
Variable sort : (GraphNode → GraphNode → Z) → list GraphNode → list GraphNode.

Definition startsWith (s searchString : string) : bool :=
  String.prefix searchString s.

(** The comparator handed to [results.sort]. *)
Definition compareResults (query : string) (a b : GraphNode) : Z :=
  let aLabel := toLowerCase (n_label a) in
  let bLabel := toLowerCase (n_label b) in
  let queryLower := toLowerCase query in
  if String.eqb aLabel queryLower && negb (String.eqb bLabel queryLower)
  then (-1)%Z
  else if String.eqb bLabel queryLower && negb (String.eqb aLabel queryLower)
  then 1%Z
  else if startsWith aLabel queryLower && negb (startsWith bLabel queryLower)
  then (-1)%Z
  else if startsWith bLabel queryLower && negb (startsWith aLabel queryLower)
  then 1%Z
  else localeCompare aLabel bLabel.

Definition highlightId (node : GraphNode) : string :=
  JS.or_string (n__id node) (n_id node).

(** [handleSearch]; [centerOnNodeSet] says whether [centerOnNodeRef.current]
    is set when the results arrive.  A centre request is the timer set for
    100 ms with the id it will pass to the canvas. *)
Definition handleSearch (centerOnNodeSet : bool) (query : string)
    (reply : JS.ApiReply (list GraphNode)) (st : SearchState) : SearchState :=
  let st := mkSearchState query (searchHighlights st) (centerRequests st) in
  if String.eqb (trim query) EmptyString
  then mkSearchState (searchQuery st) [] (centerRequests st)
  else
    match reply with
    | JS.Resolved results =>
        let sortedResults := sort (compareResults query) results in
        let highlightIds := map highlightId sortedResults in
        let st := mkSearchState (searchQuery st) highlightIds
                                (centerRequests st) in
        match sortedResults with
        | bestMatch :: _ =>
            if centerOnNodeSet
            then mkSearchState (searchQuery st) (searchHighlights st)
                   (centerRequests st ++ [(100%nat, highlightId bestMatch)])
            else st
        | [] => st
        end
    | JS.Rejected _ => mkSearchState (searchQuery st) [] (centerRequests st)
    end.

End Builtins.

End GraphViewSearch.

(** ** Vocabulary of the statements *)

(** An edge resolves against a list of node ids when both its endpoints
    are among them. *)
Definition resolves (ids : list string) (e : GraphEdge) : Prop :=
  e_source e ∈ ids ∧ e_target e ∈ ids.

Global Instance resolves_dec ids e : Decision (resolves ids e).
Proof. unfold resolves. apply _. Defined.

(** A link stems from an edge of the snapshot: the endpoints are the
    converted nodes with the ids the edge names, the id is normalised and
    the other fields are those of the edge. *)
Definition link_of (nodes : list ForceGraphNode) (e : GraphEdge)
    (l : ForceGraphEdge) : Prop :=
  l_source l ∈ nodes ∧ n_id (l_source l) = e_source e
  ∧ l_target l ∈ nodes ∧ n_id (l_target l) = e_target e
  ∧ l_id l = JS.or_string (e__id e) (e_id e)
  ∧ l__id l = e__id e ∧ l_label l = e_label e
  ∧ l_properties l = e_properties e ∧ l_directed l = e_directed e
  ∧ l_createdAt l = e_createdAt e ∧ l_updatedAt l = e_updatedAt e.

(** In the context menu opened on the node with id [s], [link] shows the
    node with id [i] as connected, in the direction [isSource]: the link
    leaves [s] for [i], or it reaches [s] from another node [i]. *)
Definition otherEndpoint (s : string) (link : ForceGraphEdge) (i : string)
    (isSource : bool) : Prop :=
  (n_id (l_source link) = s ∧ n_id (l_target link) = i ∧ isSource = true)
  ∨ (n_id (l_source link) ≠ s ∧ n_id (l_target link) = s
     ∧ n_id (l_source link) = i ∧ isSource = false).

(** A link is incident to the node with id [a]. *)
Definition incident (a : string) (link : ForceGraphEdge) : Prop :=
  n_id (l_source link) = a ∨ n_id (l_target link) = a.

Global Instance incident_dec a link : Decision (incident a link).
Proof. unfold incident. apply _. Defined.

(** The fields of a node object that the canvas never assigns. *)
Definition identity (n : ForceGraphNode) :=
  (n_id n, n__id n, n_label n, n_type n, n_properties n,
   n_createdAt n, n_updatedAt n).

(** The position, velocity and pin of [n] are those of [m]. *)
Definition same_motion (n m : ForceGraphNode) : Prop :=
  n_x n = n_x m ∧ n_y n = n_y m ∧ n_vx n = n_vx m ∧ n_vy n = n_vy m
  ∧ n_fx n = n_fx m ∧ n_fy n = n_fy m.

(** The nodes registered with a simulation have a velocity: d3-force gives
    one to every node it is handed. *)
Definition has_velocity (n : ForceGraphNode) : Prop :=
  is_Some (n_vx n) ∧ is_Some (n_vy n).

Definition registered (h : list ForceGraphNode) (nodes : list nat) : Prop :=
  ∀ l n, l ∈ nodes → h !! l = Some n → has_velocity n.

(** What the loop over the new nodes maintains, [h0] being the store when
    it starts: identities never change; the object a lookup by id finds
    keeps the motion it had, up to [|| 0] on the velocity; an object whose
    id is not found is as it was. *)
Definition stable (n m : ForceGraphNode) : Prop :=
  n_x n = n_x m ∧ n_y n = n_y m ∧ n_fx n = n_fx m ∧ n_fy n = n_fy m
  ∧ JS.or_zero (n_vx n) = JS.or_zero (n_vx m)
  ∧ JS.or_zero (n_vy n) = JS.or_zero (n_vy m).

Definition loop_inv (h0 : list ForceGraphNode) (existingNodes : list nat)
    (h : list ForceGraphNode) : Prop :=
  (∀ l, (fun n => (identity n, n_index n)) <$> h !! l
        = (fun n => (identity n, n_index n)) <$> h0 !! l)
  ∧ (∀ i e en0, GraphCanvas.find_node h0 existingNodes i = Some (e, en0) →
                ∃ en, h !! e = Some en ∧ stable en en0)
  ∧ (∀ l n0, h0 !! l = Some n0 →
             GraphCanvas.find_node h0 existingNodes (n_id n0) = None →
             h !! l = Some n0).

(** The object at [l] has received the motion of the existing node with
    its id, or is untouched when there is none. *)
Definition settled (h0 : list ForceGraphNode) (existingNodes : list nat)
    (l : nat) (h : list ForceGraphNode) : Prop :=
  ∀ n0, h0 !! l = Some n0 →
    match GraphCanvas.find_node h0 existingNodes (n_id n0) with
    | Some (_, en0) => h !! l = Some (GraphCanvas.carry en0 n0)
    | None => h !! l = Some n0
    end.

(** A node pinned at [(px, py)] and standing there. *)
Definition standing (px py : JS.number) (n : ForceGraphNode) : Prop :=
  n_fx n = Some px ∧ n_fy n = Some py ∧ n_x n = px ∧ n_y n = py.

(** The held graph is closed: the endpoints of every link carry ids of
    held nodes. *)
Definition closed (g : ForceGraphData) : Prop :=
  ∀ l, l ∈ fg_links g →
       n_id (l_source l) ∈ map n_id (fg_nodes g)
       ∧ n_id (l_target l) ∈ map n_id (fg_nodes g).

(** A backend edge under its normalised id. *)
Definition normaliseEdge (e : GraphEdge) : GraphEdge :=
  mkEdge (JS.or_string (e__id e) (e_id e)) (e__id e) (e_source e)
         (e_target e) (e_label e) (e_properties e) (e_directed e)
         (e_createdAt e) (e_updatedAt e).



(** Where a view transform draws a point of the container. *)
Definition applyTransform (t : GraphCanvas.ZoomTransform)
    (p : JS.number * JS.number) : JS.number * JS.number :=
  ((fst p * GraphCanvas.k t + GraphCanvas.tx t)%Qc,
   (snd p * GraphCanvas.k t + GraphCanvas.ty t)%Qc).

(** What can happen to a canvas: the initialisation effect runs (on mount
    and on every change of the dimensions), the simulation steps, the host
    hands over a snapshot, a drag gesture starts, moves or ends, the host
    calls a camera function. *)
Inductive CanvasEvent :=
| Resized (width height : JS.number)
| Stepped (forces : GraphCanvas.Forces)
| NewData (created : list ForceGraphNode) (data : list nat)
| DragStarted (event : GraphCanvas.DragEvent) (d : nat)
| DragMoved (event : GraphCanvas.DragEvent) (d : nat)
| DragEnded (event : GraphCanvas.DragEvent) (d : nat)
| FitRequested (bounds : option GraphCanvas.BBox)
| CenterRequested (nodeId : string).

Definition react (c : GraphCanvas.Canvas) (e : CanvasEvent)
  : GraphCanvas.Canvas :=
  match e with
  | Resized width height => GraphCanvas.initialise width height c
  | Stepped forces => GraphCanvas.tick forces c
  | NewData created data =>
      GraphCanvas.later (fun _ _ _ => (0%Qc, 0%Qc))
                        (GraphCanvas.Snapshot created data) c
  | DragStarted event d => GraphCanvas.dragStart event d c
  | DragMoved event d => snd (GraphCanvas.drag event d c)
  | DragEnded event d => snd (GraphCanvas.dragEnd event d c)
  | FitRequested bounds => GraphCanvas.invokeFitToScreen bounds c
  | CenterRequested nodeId => GraphCanvas.invokeCenterOnNode nodeId c
  end.

(** The simulation is warm: neither alpha nor its target is below the
    configured target. *)
Definition warm (sim : GraphCanvas.Simulation) : Prop :=
  (GraphCanvas.ALPHA_TARGET <= GraphCanvas.sim_alpha sim)%Qc
  ∧ (GraphCanvas.ALPHA_TARGET <= GraphCanvas.sim_alphaTarget sim)%Qc.

(** How well the label of a search result matches the query, both in lower
    case: 0 for an exact match, 1 for a label that starts with the query,
    2 otherwise. *)
Definition matchRank (toLowerCase : string → string) (query : string)
    (node : GraphNode) : nat :=
  if String.eqb (toLowerCase (n_label node)) (toLowerCase query) then 0
  else if GraphViewSearch.startsWith (toLowerCase (n_label node))
                                     (toLowerCase query)
       then 1
       else 2.

(** ** Sample data *)

Definition sampleNode (i : string) (x y : Q) : ForceGraphNode :=
  mkNode i None i "default" [] (JS.num x) (JS.num y)
         None None None None None None None.

Definition sampleLink (i : string) (source target : ForceGraphNode)
  : ForceGraphEdge :=
  mkLink i None source target "connects" [] true None None.

Definition node_a : ForceGraphNode := sampleNode "a" 10 20.
Definition node_b : ForceGraphNode := sampleNode "b" 30 40.
Definition node_c : ForceGraphNode := sampleNode "c" 50 60.

(** Nodes a, b, c with the edges e1 : a -> b and e2 : c -> a. *)
Definition sampleGraph : ForceGraphData :=
  mkForceGraphData [node_a; node_b; node_c]
                   [sampleLink "e1" node_a node_b; sampleLink "e2" node_c node_a].

(** Nodes a, b with the self-loop e0 : a -> a. *)
Definition selfLoopGraph : ForceGraphData :=
  mkForceGraphData [node_a; node_b] [sampleLink "e0" node_a node_a].

(** A view state holding [sampleGraph] with node a selected. *)
Definition sampleState : GraphView.State :=
  GraphView.mkState sampleGraph (Some (SelNode node_a)) true false None
    (GraphView.mkConfirmModal false EmptyString EmptyString None) true [].

(** A mounted canvas of 800 by 600, zoomed to scale 2 and panned to
    (10, 20), and a drawn extent of 1 by 1. *)
Definition sampleCanvas : GraphCanvas.Canvas :=
  GraphCanvas.mkCanvas [] GraphCanvas.forceSimulation true
    (GraphCanvas.mkTransform (JS.num 2) (JS.num 10) (JS.num 20))
    (JS.num 800, JS.num 600) GraphCanvas.FitUnset GraphCanvas.CenterUnset.

Definition unitBox : GraphCanvas.BBox :=
  GraphCanvas.mkBBox (JS.num 0) (JS.num 0) (JS.num 1) (JS.num 1).

(** No forces: every velocity is left at zero. *)
Definition noForces : GraphCanvas.Forces := fun _ _ _ => (0%Qc, 0%Qc).

(** A mounted canvas whose simulation holds the nodes a (reference 0) and
    b (reference 1), and a later copy of node a made by the host. *)
Definition sampleScene : GraphCanvas.Canvas :=
  GraphCanvas.updateData [0; 1]%nat
    (GraphCanvas.mkCanvas [node_a; node_b] GraphCanvas.forceSimulation true
       GraphCanvas.zoomIdentity (JS.num 800, JS.num 600)
       GraphCanvas.FitUnset GraphCanvas.CenterUnset).

Definition copy_of_a : ForceGraphNode := sampleNode "a" 0 0.

(** A stable sort by insertion and a comparison of strings by code unit,
    to run [handleSearch] on; three search results. *)
Fixpoint insertSorted {B : Type} (cmp : B → B → Z) (x : B) (l : list B)
  : list B :=
  match l with
  | [] => [x]
  | y :: l' => if (0 <? cmp y x)%Z then x :: l else y :: insertSorted cmp x l'
  end.

Definition insertionSort {B : Type} (cmp : B → B → Z) (l : list B) : list B :=
  foldr (insertSorted cmp) [] l.

Definition compareUnits (a b : string) : Z :=
  match String.compare a b with
  | Lt => (-1)%Z
  | Eq => 0%Z
  | Gt => 1%Z
  end.

Definition searchResults : list ForceGraphNode :=
  [mkNode "n1" None "graph theory" "default" [] (JS.num 0) (JS.num 0)
          None None None None None None None;
   mkNode "n2" None "a graph" "default" [] (JS.num 0) (JS.num 0)
          None None None None None None None;
   mkNode "n3" (Some "m3") "graph" "default" [] (JS.num 0) (JS.num 0)
          None None None None None None None].

(** * Properties *)

(** ** Conversion of a snapshot *)

Section Conversion.
Import GraphView.

Lemma buildNodeMap_from (nodes : list ForceGraphNode)
    (m : gmap string ForceGraphNode) (i : string) (n : ForceGraphNode) :
  foldl (fun m forceNode => <[n_id forceNode := forceNode]> m) m nodes !! i
    = Some n →
  (n ∈ nodes ∧ n_id n = i) ∨ m !! i = Some n.
Proof.
  revert m. induction nodes as [|a nodes IH]; intros m H; simpl in H.
  - by right.
  - destruct (IH _ H) as [[Hin Hid]|Hm].
    + left. split; [by apply elem_of_cons; right|done].
    + destruct (decide (n_id a = i)) as [Heq|Hne].
      * subst i. rewrite lookup_insert_eq in Hm. injection Hm as ->.
        left. split; [by apply elem_of_cons; left|done].
      * rewrite lookup_insert_ne in Hm by done. by right.
Qed.

Lemma buildNodeMap_dom_from (nodes : list ForceGraphNode)
    (m : gmap string ForceGraphNode) (i : string) :
  is_Some (foldl (fun m forceNode => <[n_id forceNode := forceNode]> m)
                 m nodes !! i)
  ↔ i ∈ map n_id nodes ∨ is_Some (m !! i).
Proof.
  revert m. induction nodes as [|a nodes IH]; intros m; simpl.
  - split; [by right|]. intros [H|H]; [|done]. by apply elem_of_nil in H.
  - rewrite IH. rewrite elem_of_cons.
    destruct (decide (n_id a = i)) as [Heq|Hne].
    + subst i. rewrite lookup_insert_eq. split; [|eauto]. intros _. by left; left.
    + rewrite lookup_insert_ne by done. split.
      * intros [H|H]; [by left; right|by right].
      * intros [[H|H]|H]; [congruence|by left|by right].
Qed.

Lemma buildNodeMap_lookup (nodes : list ForceGraphNode) i n :
  buildNodeMap nodes !! i = Some n → n ∈ nodes ∧ n_id n = i.
Proof.
  intros H. destruct (buildNodeMap_from _ _ _ _ H) as [?|He]; [done|].
  by rewrite lookup_empty in He.
Qed.

Lemma buildNodeMap_is_Some (nodes : list ForceGraphNode) i :
  is_Some (buildNodeMap nodes !! i) ↔ i ∈ map n_id nodes.
Proof.
  unfold buildNodeMap. rewrite buildNodeMap_dom_from. split; [|by left].
  intros [H|H]; [done|]. rewrite lookup_empty in H. by destruct H.
Qed.

Lemma toLink_resolved (nodes : list ForceGraphNode) (e : GraphEdge) :
  resolves (map n_id nodes) e →
  ∃ l, toLink (buildNodeMap nodes) e = (Some l, []) ∧ link_of nodes e l.
Proof.
  intros [Hs Ht].
  apply buildNodeMap_is_Some in Hs as [s Hs].
  apply buildNodeMap_is_Some in Ht as [t Ht].
  unfold toLink. rewrite Hs, Ht. eexists. split; [done|].
  apply buildNodeMap_lookup in Hs as [? ?].
  apply buildNodeMap_lookup in Ht as [? ?].
  repeat split; done.
Qed.

Lemma toLink_dangling (nodes : list ForceGraphNode) (e : GraphEdge) :
  ¬ resolves (map n_id nodes) e →
  toLink (buildNodeMap nodes) e = (None, [warning e]).
Proof.
  intros Hr. unfold toLink.
  destruct (buildNodeMap nodes !! e_source e) as [s|] eqn:Hs; [|done].
  destruct (buildNodeMap nodes !! e_target e) as [t|] eqn:Ht; [|done].
  destruct Hr. split; apply buildNodeMap_is_Some; eauto.
Qed.

Lemma toLink_edges (nodes : list ForceGraphNode) (edges : list GraphEdge) :
  let mapped := map (toLink (buildNodeMap nodes)) edges in
  Forall2 (link_of nodes) (filter (resolves (map n_id nodes)) edges)
          (omap fst mapped)
  ∧ concat (map snd mapped)
    = map warning (filter (fun e => ¬ resolves (map n_id nodes) e) edges).
Proof.
  induction edges as [|e edges [IH1 IH2]]; simpl.
  - split; [constructor|done].
  - destruct (decide (resolves (map n_id nodes) e)) as [Hr|Hr].
    + destruct (toLink_resolved nodes e Hr) as (l & -> & Hl).
      rewrite filter_cons_True by done.
      rewrite filter_cons_False by (intros Hn; by apply Hn).
      simpl. split; [by constructor|done].
    + rewrite (toLink_dangling nodes e Hr).
      rewrite filter_cons_False by done.
      rewrite filter_cons_True by done.
      simpl. split; [done|]. by rewrite IH2.
Qed.

(** C3. For every snapshot, the links of the converted data are, in order,
    the edges whose two endpoints name a converted node (each turned into a
    link between those node objects); every other edge yields no link and one
    warning on the console; and loading the snapshot stores the converted
    data without setting the error shown to the user. *)
Theorem convertToForceGraphData_drops_dangling_edges (data : GraphData) :
  let converted := fst (convertToForceGraphData data) in
  let warnings := snd (convertToForceGraphData data) in
  let ids := map n_id (fg_nodes converted) in
  fg_nodes converted = map toForceNode (gd_nodes data)
  ∧ Forall2 (link_of (fg_nodes converted))
            (filter (resolves ids) (gd_edges data)) (fg_links converted)
  ∧ warnings = map warning (filter (fun e => ¬ resolves ids e) (gd_edges data))
  ∧ (∀ l, l ∈ fg_links converted →
          n_id (l_source l) ∈ ids ∧ n_id (l_target l) ∈ ids)
  ∧ let st := loadGraphData (JS.Resolved data) initialState in
    graphData st = converted ∧ error st = None ∧ console st = warnings.
Proof.
  simpl.
  destruct (toLink_edges (map toForceNode (gd_nodes data)) (gd_edges data))
    as [H1 H2].
  split; [done|]. split; [done|]. split; [done|]. split; [|done].
  intros l Hl.
  destruct (proj1 (list_elem_of_lookup _ _) Hl) as [j Hj].
  destruct (Forall2_lookup_r _ _ _ _ _ H1 Hj) as (e & He & Hlink).
  apply list_elem_of_lookup_2, list_elem_of_filter in He as [[Hs Ht] _].
  destruct Hlink as (_ & -> & _ & -> & _). done.
Qed.

Example dangling_edge_is_dropped :
  let data :=
    mkGraphData [node_a; node_b]
      [mkEdge "e1" None "a" "b" "connects" [] true None None;
       mkEdge "e2" None "a" "z" "connects" [] true None None] in
  fg_links (fst (convertToForceGraphData data))
  = [sampleLink "e1" node_a node_b]
  ∧ snd (convertToForceGraphData data)
    = ["Edge references non-existent node: a -> z"].
Proof. split; reflexivity. Qed.

End Conversion.

(** ** Debounced position updates *)

Section Debounce.
Import ApiClient.
Context {A : Type}.
Implicit Types (d : Debounced A) (script : list (nat * A)).

Lemma debounced_idle delay t args d :
  queue (timers d) = [] → (now (timers d) ≤ t)%nat →
  armed delay t args (debounced delay args (elapse t d))
  ∧ calls (debounced delay args (elapse t d)) = calls d.
Proof.
  destruct d as [o [n nx q] cs]. simpl. intros -> Hnow.
  unfold debounced, elapse, armed. simpl. rewrite !filter_nil.
  replace (n `max` t) with t by lia.
  split; [|by rewrite app_nil_r].
  destruct o; simpl; rewrite ?filter_nil; by eexists.
Qed.

Lemma debounced_rearm delay t args t' args' d :
  armed delay t args d → (t ≤ t')%nat → (t' < t + delay)%nat →
  armed delay t' args' (debounced delay args' (elapse t' d))
  ∧ calls (debounced delay args' (elapse t' d)) = calls d.
Proof.
  destruct d as [o [n nx q] cs]. simpl.
  intros (i & Hq & Hid & Hnow) Hle Hlt. simpl in *. subst q o n.
  unfold debounced, elapse, armed. simpl.
  rewrite !filter_cons, !filter_nil. simpl.
  destruct (decide (t + delay ≤ t')%nat) as [?|_]; [lia|].
  destruct (decide (¬ (t + delay ≤ t')%nat)) as [_|Hn]; [|destruct Hn; lia].
  simpl. rewrite filter_cons, filter_nil. simpl.
  destruct (decide (i ≠ i)) as [?|_]; [done|]. simpl.
  replace (t `max` t') with t' by lia.
  split; [by eexists|by rewrite app_nil_r].
Qed.

Lemma last_cons_default {B : Type} (x : B) (l : list B) :
  last (x :: l) = Some (default x (last l)).
Proof.
  revert x. induction l as [|y l IH]; intros x; [done|].
  change (last (x :: y :: l)) with (last (y :: l)). rewrite IH.
  simpl. by destruct (last l).
Qed.

Lemma run_armed delay script t args d :
  armed delay t args d → burst_from delay t (map fst script) →
  armed delay (fst (default (t, args) (last script)))
        (snd (default (t, args) (last script))) (run delay script d)
  ∧ calls (run delay script d) = calls d.
Proof.
  revert t args d. induction script as [|[t' a'] script IH];
    intros t args d Harmed Hburst; simpl in *.
  - done.
  - destruct Hburst as (Hle & Hlt & Hburst).
    destruct (debounced_rearm delay t args t' a' d Harmed Hle Hlt)
      as [Harmed' Hcalls].
    destruct (IH _ _ _ Harmed' Hburst) as [H1 H2].
    fold (run delay script (debounced delay a' (elapse t' d))).
    rewrite H2, Hcalls. split; [|done].
    rewrite last_cons_default. simpl.
    destruct (last script); done.
Qed.

Lemma elapse_armed delay t args d T :
  armed delay t args d →
  calls (elapse T d)
  = (calls d ++ if decide (t + delay ≤ T)%nat then [(t + delay, args)%nat]
                else [])%list.
Proof.
  intros (i & Hq & _ & _). unfold elapse. simpl. rewrite Hq.
  rewrite filter_cons, filter_nil. simpl.
  destruct (decide (t + delay ≤ T)%nat); done.
Qed.

Lemma run_burst delay script d t args T :
  queue (timers d) = [] →
  (∀ c, head script = Some c → (now (timers d) ≤ fst c)%nat) →
  burst delay (map fst script) →
  last script = Some (t, args) →
  calls (run delay script d) = calls d
  ∧ calls (elapse T (run delay script d))
    = (calls d ++ if decide (t + delay ≤ T)%nat then [(t + delay, args)%nat]
                  else [])%list.
Proof.
  intros Hq Hnow Hburst Hlast.
  destruct script as [|[t1 a1] script]; [done|].
  destruct (debounced_idle delay t1 a1 d Hq (Hnow _ eq_refl))
    as [Harmed Hcalls].
  destruct (run_armed delay script t1 a1 _ Harmed Hburst) as [H1 H2].
  rewrite last_cons_default in Hlast. injection Hlast as Hlast.
  rewrite Hlast in H1. simpl in H1.
  change (run delay ((t1, a1) :: script) d)
    with (run delay script (debounced delay a1 (elapse t1 d))).
  rewrite (elapse_armed delay t args _ T H1), H2, Hcalls. done.
Qed.

End Debounce.

(** C4. For a burst of one or more calls of the debounced position update,
    consecutive calls less than 500 ms apart, starting while no update is
    pending: no update has gone out when the last call is made, and at any
    later instant the updates sent are exactly one, carrying the id, x and y
    of the last call, sent 500 ms after that call, once that time has
    elapsed, and none before. *)
Theorem debouncedUpdateNodePosition_burst
    (script : list (nat * ApiClient.PositionUpdate))
    (d : ApiClient.Debounced ApiClient.PositionUpdate)
    (t : nat) (args : ApiClient.PositionUpdate) (T : nat) :
  ApiClient.queue (ApiClient.timers d) = [] →
  (∀ c, head script = Some c →
        (ApiClient.now (ApiClient.timers d) ≤ fst c)%nat) →
  ApiClient.burst ApiClient.DEBOUNCE_DELAY (map fst script) →
  last script = Some (t, args) →
  let after :=
    foldl (fun d c => ApiClient.debouncedUpdateNodePosition
                        (snd c) (ApiClient.elapse (fst c) d)) d script in
  ApiClient.calls after = ApiClient.calls d
  ∧ ApiClient.calls (ApiClient.elapse T after)
    = (ApiClient.calls d
       ++ if decide (t + 500 ≤ T)%nat then [(t + 500, args)%nat] else [])%list.
Proof.
  intros Hq Hnow Hburst Hlast.
  exact (run_burst ApiClient.DEBOUNCE_DELAY script d t args T
                   Hq Hnow Hburst Hlast).
Qed.

Lemma debouncedUpdateNodePosition_burst_witness :
  let script :=
    [(0, ("a", JS.num 1, JS.num 2)); (100, ("a", JS.num 3, JS.num 4));
     (400, ("b", JS.num 5, JS.num 6))]%nat in
  let after :=
    foldl (fun d c => ApiClient.debouncedUpdateNodePosition
                        (snd c) (ApiClient.elapse (fst c) d))
          ApiClient.fresh script in
  ApiClient.calls after = []
  ∧ ApiClient.calls (ApiClient.elapse 1000 after)
    = [(900, ("b", JS.num 5, JS.num 6))%nat].
Proof.
  intros script.
  apply (debouncedUpdateNodePosition_burst
           script ApiClient.fresh 400 ("b", JS.num 5, JS.num 6) 1000).
  - reflexivity.
  - intros c [= <-]. simpl. lia.
  - unfold ApiClient.DEBOUNCE_DELAY. simpl. lia.
  - reflexivity.
Defined.

(** The window is tight: a call made exactly 500 ms after the previous one
    finds that one already sent, and both go out. *)
Example calls_a_window_apart_both_fire :
  let script :=
    [(0, ("a", JS.num 1, JS.num 2)); (500, ("a", JS.num 3, JS.num 4))]%nat in
  ApiClient.calls
    (ApiClient.elapse 1000
       (ApiClient.run ApiClient.DEBOUNCE_DELAY script ApiClient.fresh))
  = [(500, ("a", JS.num 1, JS.num 2)); (1000, ("a", JS.num 3, JS.num 4))]%nat.
Proof. reflexivity. Qed.

(** ** Context menu *)

Section ContextMenu.
Import GraphCanvas.

(** C10. A click on a context-menu entry raises [onCreateEdge] only for a
    target whose id differs from the id of the source node of the menu, with
    exactly these two ids; with equal ids, or without a source node, nothing
    is raised; in every case the menu is closed.  No [onCreateEdge] event
    ever carries two equal ids. *)
Theorem handleCreateEdgeFromContext_never_self (target : ForceGraphNode)
    (menu : ContextMenu) :
  let emitted := fst (handleCreateEdgeFromContext target menu) in
  let menu' := snd (handleCreateEdgeFromContext target menu) in
  show menu' = false
  ∧ (∀ e, e ∈ emitted →
       ∃ source, sourceNode menu = Some source
                 ∧ n_id target ≠ n_id source
                 ∧ e = OnCreateEdge (n_id source) (n_id target))
  ∧ (∀ s t, OnCreateEdge s t ∈ emitted → s ≠ t)
  ∧ (∀ source, sourceNode menu = Some source →
       emitted = if decide (n_id target = n_id source) then []
                 else [OnCreateEdge (n_id source) (n_id target)])
  ∧ (sourceNode menu = None → emitted = []).
Proof.
  unfold handleCreateEdgeFromContext. simpl.
  assert (Hsrc : ∀ source, sourceNode menu = Some source →
            (if negb (String.eqb (n_id target) (n_id source))
             then [OnCreateEdge (n_id source) (n_id target)] else [])
            = if decide (n_id target = n_id source) then []
              else [OnCreateEdge (n_id source) (n_id target)]).
  { intros source _. destruct (String.eqb_spec (n_id target) (n_id source));
      simpl; case_decide; done. }
  assert (Hemit : ∀ e,
            e ∈ match sourceNode menu with
                | Some source =>
                    if negb (String.eqb (n_id target) (n_id source))
                    then [OnCreateEdge (n_id source) (n_id target)] else []
                | None => []
                end →
            ∃ source, sourceNode menu = Some source
                      ∧ n_id target ≠ n_id source
                      ∧ e = OnCreateEdge (n_id source) (n_id target)).
  { intros e He. destruct (sourceNode menu) as [source|];
      [|by apply elem_of_nil in He].
    rewrite (Hsrc source eq_refl) in He. case_decide.
    - by apply elem_of_nil in He.
    - apply list_elem_of_singleton in He. by exists source. }
  split; [done|]. split; [exact Hemit|]. split; [|split].
  - intros s t He. destruct (Hemit _ He) as (source & _ & Hne & [= -> ->]).
    congruence.
  - intros source Hs. rewrite Hs. by apply Hsrc.
  - by intros ->.
Qed.

Lemma foldl_push {B C : Type} (f : B → list C) (l : list B) (acc : list C) :
  foldl (fun acc x => (acc ++ f x)%list) acc l = (acc ++ concat (map f l))%list.
Proof.
  revert acc. induction l as [|x l IH]; intros acc; simpl.
  - by rewrite app_nil_r.
  - by rewrite IH, app_assoc.
Qed.

Lemma findById_Some nodes i n :
  findById nodes i = Some n → n ∈ nodes ∧ n_id n = i.
Proof.
  induction nodes as [|m nodes IH]; simpl; [done|].
  destruct (String.eqb_spec (n_id m) i) as [Heq|Hne].
  - intros [= ->]. split; [by left|done].
  - intros H. destruct (IH H). split; [by right|done].
Qed.

Lemma findById_unique nodes n :
  NoDup (map n_id nodes) → n ∈ nodes → findById nodes (n_id n) = Some n.
Proof.
  induction nodes as [|m nodes IH]; simpl; intros Hnd Hin.
  - by apply elem_of_nil in Hin.
  - apply NoDup_cons in Hnd as [Hm Hnd].
    destruct (String.eqb_spec (n_id m) (n_id n)) as [Heq|Hne].
    + apply elem_of_cons in Hin as [->|Hin]; [done|].
      destruct Hm. rewrite Heq. apply list_elem_of_In, in_map.
      by apply list_elem_of_In.
    + apply elem_of_cons in Hin as [->|Hin]; [done|]. by apply IH.
Qed.

Lemma connectedOf_spec nodes s link entry :
  entry ∈ connectedOf nodes s link ↔
  ci_edgeId entry = l_id link
  ∧ findById nodes (n_id (ci_node entry)) = Some (ci_node entry)
  ∧ otherEndpoint s link (n_id (ci_node entry)) (ci_isSource entry).
Proof.
  unfold connectedOf, otherEndpoint.
  destruct (String.eqb_spec (n_id (l_source link)) s) as [Hs|Hs].
  - destruct (findById nodes (n_id (l_target link))) as [t|] eqn:Hf.
    + destruct (findById_Some _ _ _ Hf) as [_ Hid]. split.
      * intros ->%list_elem_of_singleton. simpl. rewrite Hid.
        split; [done|]. split; [done|]. by left.
      * intros (He & Hfind & [(_ & Ht & Hd)|(Hn & _)]); [|done].
        rewrite <- Ht, Hf in Hfind. injection Hfind as Hfind.
        destruct entry; simpl in *; subst. by apply list_elem_of_singleton.
    + split; [by intros ?%elem_of_nil|].
      intros (_ & Hfind & [(_ & Ht & _)|(Hn & _)]); [|done].
      rewrite <- Ht, Hf in Hfind. done.
  - destruct (String.eqb_spec (n_id (l_target link)) s) as [Ht|Ht].
    + destruct (findById nodes (n_id (l_source link))) as [t|] eqn:Hf.
      * destruct (findById_Some _ _ _ Hf) as [_ Hid]. split.
        -- intros ->%list_elem_of_singleton. simpl. rewrite Hid.
           split; [done|]. split; [done|]. by right.
        -- intros (He & Hfind & [(Hn & _)|(_ & _ & Hi & Hd)]); [done|].
           rewrite <- Hi, Hf in Hfind. injection Hfind as Hfind.
           destruct entry; simpl in *; subst.
           by apply list_elem_of_singleton.
      * split; [by intros ?%elem_of_nil|].
        intros (_ & Hfind & [(Hn & _)|(_ & _ & Hi & _)]); [done|].
        rewrite <- Hi, Hf in Hfind. done.
    + split; [by intros ?%elem_of_nil|].
      intros (_ & _ & [(Hn & _)|(_ & Hn & _)]); done.
Qed.

Lemma getConnectedNodesInfo_spec data s entry :
  entry ∈ getConnectedNodesInfo data s ↔
  ∃ link, link ∈ fg_links data ∧ entry ∈ connectedOf (fg_nodes data) s link.
Proof.
  unfold getConnectedNodesInfo. rewrite foldl_push. simpl.
  rewrite list_elem_of_In, in_concat. split.
  - intros (l & Hl & Hin). apply in_map_iff in Hl as (link & <- & Hlink).
    exists link. by rewrite !list_elem_of_In.
  - intros (link & Hlink & Hin). exists (connectedOf (fg_nodes data) s link).
    rewrite <- !list_elem_of_In. split; [|done].
    apply list_elem_of_In, in_map. by apply list_elem_of_In.
Qed.

Lemma connectedNodeIds_spec data s i :
  i ∈ connectedNodeIds data s ↔
  ∃ link isSource, link ∈ fg_links data ∧ otherEndpoint s link i isSource.
Proof.
  unfold connectedNodeIds.
  assert (H : ∀ links (acc : gset string),
    i ∈ foldl (fun ids link =>
                 if String.eqb (n_id (l_source link)) s
                 then {[n_id (l_target link)]} ∪ ids
                 else if String.eqb (n_id (l_target link)) s
                      then {[n_id (l_source link)]} ∪ ids
                      else ids) acc links
    ↔ i ∈ acc ∨ ∃ link isSource, link ∈ links ∧ otherEndpoint s link i isSource).
  { induction links as [|link links IH]; intros acc; simpl.
    - split; [by left|]. intros [?|(? & ? & ?%elem_of_nil & _)]; done.
    - rewrite IH. unfold otherEndpoint.
      destruct (String.eqb_spec (n_id (l_source link)) s) as [Hs|Hs];
        [|destruct (String.eqb_spec (n_id (l_target link)) s) as [Ht|Ht]].
      + rewrite elem_of_union, elem_of_singleton. split.
        * intros [[->|?]|(l & d & Hl & Hd)]; [|by left|].
          -- right. exists link, true. split; [by left|]. by left.
          -- right. exists l, d. split; [by right|done].
        * intros [?|(l & d & [->|Hl]%elem_of_cons & Hd)].
          -- by left; right.
          -- destruct Hd as [(_ & Ht & _)|(Hn & _)]; [|done]. by left; left.
          -- right. by exists l, d.
      + rewrite elem_of_union, elem_of_singleton. split.
        * intros [[->|?]|(l & d & Hl & Hd)]; [|by left|].
          -- right. exists link, false. split; [by left|]. by right.
          -- right. exists l, d. split; [by right|done].
        * intros [?|(l & d & [->|Hl]%elem_of_cons & Hd)].
          -- by left; right.
          -- destruct Hd as [(Hn & _)|(_ & _ & Hi & _)]; [done|]. by left; left.
          -- right. by exists l, d.
      + split.
        * intros [?|(l & d & Hl & Hd)]; [by left|].
          right. exists l, d. split; [by right|done].
        * intros [?|(l & d & [->|Hl]%elem_of_cons & Hd)]; [by left| |].
          -- destruct Hd as [(Hn & _)|(_ & Hn & _)]; done.
          -- right. by exists l, d. }
  rewrite H. split; [|by right]. intros [?%not_elem_of_empty|?]; done.
Qed.

(** C6 (amended). For a node set with unique ids, an edge set and a source
    id [s]: the connected list holds exactly the nodes at the other end of
    some edge incident to [s], each with the id and direction of that edge,
    a self-loop on [s] listing [s] itself as its target; the unconnected list
    holds exactly the remaining nodes other than [s]; [s] is never in the
    unconnected list, and it is in the connected list exactly when the edge
    set has a self-loop on [s]. *)
Theorem context_menu_lists (data : ForceGraphData) (s : string) :
  NoDup (map n_id (fg_nodes data)) →
  (∀ entry, entry ∈ getConnectedNodesInfo data s ↔
     ci_node entry ∈ fg_nodes data
     ∧ ∃ link, link ∈ fg_links data ∧ ci_edgeId entry = l_id link
               ∧ otherEndpoint s link (n_id (ci_node entry))
                               (ci_isSource entry))
  ∧ (∀ n, n ∈ getUnconnectedNodes data s ↔
       n ∈ fg_nodes data ∧ n_id n ≠ s
       ∧ n ∉ map ci_node (getConnectedNodesInfo data s))
  ∧ (∀ n, n_id n = s →
       (n ∉ getUnconnectedNodes data s)
       ∧ (n ∈ map ci_node (getConnectedNodesInfo data s) ↔
          n ∈ fg_nodes data
          ∧ ∃ link, link ∈ fg_links data
                    ∧ n_id (l_source link) = s ∧ n_id (l_target link) = s)).
Proof.
  intros Hnd.
  assert (H1 : ∀ entry, entry ∈ getConnectedNodesInfo data s ↔
     ci_node entry ∈ fg_nodes data
     ∧ ∃ link, link ∈ fg_links data ∧ ci_edgeId entry = l_id link
               ∧ otherEndpoint s link (n_id (ci_node entry))
                               (ci_isSource entry)).
  { intros entry. rewrite getConnectedNodesInfo_spec. split.
    - intros (link & Hl & (He & Hf & Ho)%connectedOf_spec).
      split; [by apply findById_Some in Hf as [? _]|]. by exists link.
    - intros (Hin & link & Hl & He & Ho). exists link. split; [done|].
      apply connectedOf_spec. split; [done|]. split; [|done].
      by apply findById_unique. }
  assert (Hmap : ∀ n, n ∈ map ci_node (getConnectedNodesInfo data s) ↔
     n ∈ fg_nodes data
     ∧ ∃ link d, link ∈ fg_links data ∧ otherEndpoint s link (n_id n) d).
  { intros n. rewrite list_elem_of_In, in_map_iff. split.
    - intros (entry & <- & Hentry).
      apply list_elem_of_In, H1 in Hentry as (Hin & link & Hl & _ & Ho).
      split; [done|]. by exists link, (ci_isSource entry).
    - intros (Hin & link & d & Hl & Ho).
      exists (mkConnectedInfo n (l_id link) d). split; [done|].
      apply list_elem_of_In, H1. simpl. split; [done|]. by exists link. }
  split; [exact H1|]. split.
  - intros n. unfold getUnconnectedNodes. rewrite list_elem_of_filter.
    rewrite Hmap, connectedNodeIds_spec. split.
    + intros ((Hne & Hni) & Hin). split; [done|]. split; [done|].
      intros (_ & Hex). by apply Hni.
    + intros (Hin & Hne & Hni). split; [|done]. split; [done|].
      intros Hex. apply Hni. by split.
  - intros n Hn. split.
    + unfold getUnconnectedNodes. rewrite list_elem_of_filter.
      intros ((Hne & _) & _). done.
    + rewrite Hmap. split.
      * intros (Hin & link & d & Hl & Ho). split; [done|]. exists link.
        split; [done|]. destruct Ho as [(Hs & Ht & _)|(Hs & _ & Hi & _)].
        -- by rewrite Hs, Ht.
        -- by rewrite Hi in Hs.
      * intros (Hin & link & Hl & Hs & Ht). split; [done|].
        exists link, true. split; [done|]. left. by rewrite Hs, Ht, Hn.
Qed.

Lemma context_menu_lists_witness :
  NoDup (map n_id (fg_nodes sampleGraph))
  ∧ (∀ n, n ∈ getUnconnectedNodes sampleGraph "b" ↔
       n ∈ fg_nodes sampleGraph ∧ n_id n ≠ "b"
       ∧ n ∉ map ci_node (getConnectedNodesInfo sampleGraph "b")).
Proof.
  assert (Hnd : NoDup (map n_id (fg_nodes sampleGraph))).
  { apply (bool_decide_unpack _). vm_compute. reflexivity. }
  split; [exact Hnd|].
  exact (proj1 (proj2 (context_menu_lists sampleGraph "b" Hnd))).
Defined.

(** C6, as stated, fails on a self-loop: in the graph with nodes a, b and
    the edge a -> a, the connected list of a is a itself. *)
Lemma self_loop_lists_source_as_connected :
  getConnectedNodesInfo selfLoopGraph "a"
  = [mkConnectedInfo node_a "e0" true]
  ∧ node_a ∈ fg_nodes selfLoopGraph ∧ n_id node_a = "a".
Proof. split; [reflexivity|]. split; [by left|reflexivity]. Qed.

Example sampleGraph_menu_of_a :
  map (fun e => (n_id (ci_node e), ci_edgeId e, ci_isSource e))
      (getConnectedNodesInfo sampleGraph "a")
  = [("b", "e1", true); ("c", "e2", false)]
  ∧ getUnconnectedNodes sampleGraph "a" = [].
Proof. split; reflexivity. Qed.

End ContextMenu.

(** ** Held graph data and selection *)

Section View.
Import GraphView.

(** C9. With the node [item] selected, asking for its deletion and
    confirming it (the backend acknowledging) leaves as held nodes exactly
    the former nodes whose id is not that of [item], and as held links
    exactly the former links not incident to it, each unchanged and in its
    former order; the selection is cleared. *)
Theorem confirmed_node_deletion_frame (st : State) (item : GraphNode) :
  selectedItem st = Some (SelNode item) →
  let st' := dispatch (ConfirmDelete (JS.Resolved tt)) (dispatch DeleteItem st) in
  fg_nodes (graphData st')
    = filter (fun n => n_id n ≠ n_id item) (fg_nodes (graphData st))
  ∧ fg_links (graphData st')
    = filter (fun l => ¬ incident (n_id item) l) (fg_links (graphData st))
  ∧ (∀ n, n ∈ fg_nodes (graphData st') ↔
          n ∈ fg_nodes (graphData st) ∧ n_id n ≠ n_id item)
  ∧ (∀ l, l ∈ fg_links (graphData st') ↔
          l ∈ fg_links (graphData st) ∧ ¬ incident (n_id item) l)
  ∧ selectedItem st' = None.
Proof.
  intros Hsel. simpl. unfold handleDeleteItem, onConfirm. rewrite Hsel. simpl.
  assert (Hl : filter (fun link => n_id (l_source link) ≠ n_id item
                                   ∧ n_id (l_target link) ≠ n_id item)
                      (fg_links (graphData st))
               = filter (fun l => ¬ incident (n_id item) l)
                        (fg_links (graphData st))).
  { apply list_filter_iff. intros l. unfold incident. tauto. }
  rewrite Hl. split; [done|]. split; [done|]. split; [|split; [|done]].
  - intros n. rewrite list_elem_of_filter. tauto.
  - intros l. rewrite list_elem_of_filter. tauto.
Qed.

Lemma confirmed_node_deletion_frame_witness :
  selectedItem sampleState = Some (SelNode node_a)
  ∧ let st' := dispatch (ConfirmDelete (JS.Resolved tt))
                        (dispatch DeleteItem sampleState) in
    fg_nodes (graphData st') = [node_b; node_c]
    ∧ fg_links (graphData st') = []
    ∧ selectedItem st' = None.
Proof.
  split; [reflexivity|].
  destruct (confirmed_node_deletion_frame sampleState node_a eq_refl)
    as (Hn & Hl & _ & _ & Hs).
  split; [exact Hn|]. split; [exact Hl|exact Hs].
Defined.

(** When the backend refuses the deletion, the held data and the selection
    stay as they were and the error is shown. *)
Lemma refused_deletion_changes_nothing (st : State) (sel : SelectedItem)
    (message : string) :
  selectedItem st = Some sel →
  let st' := dispatch (ConfirmDelete (JS.Rejected message))
                      (dispatch DeleteItem st) in
  graphData st' = graphData st ∧ selectedItem st' = Some sel
  ∧ is_Some (error st').
Proof.
  intros Hsel. simpl. unfold handleDeleteItem, onConfirm. rewrite Hsel. simpl.
  split; [done|]. split; [done|]. destruct sel; by eexists.
Qed.

(** C8 (amended). A click on a node or on an edge selects it.  The
    selection is cleared by the confirmed deletion of the selected item, by
    unlinking the selected edge from the context menu, and by closing the
    properties panel.  A click on the empty background does not clear it: it
    selects the node created by the click, and leaves the selection as it is
    when the creation fails.  The selection never holds more than one
    item. *)
Theorem selection_lifecycle (st : State) :
  (∀ node, selectedItem (dispatch (NodeClick node) st) = Some (SelNode node))
  ∧ (∀ edge, selectedItem (dispatch (EdgeClick edge) st)
             = Some (SelEdge (toBasicEdge edge))
             ∧ e_id (toBasicEdge edge) = l_id edge)
  ∧ (∀ sel, selectedItem st = Some sel →
       let st' := dispatch (ConfirmDelete (JS.Resolved tt))
                           (dispatch DeleteItem st) in
       selectedItem st' = None
       ∧ match sel with
         | SelNode item =>
             ∀ n, n ∈ fg_nodes (graphData st') → n_id n ≠ n_id item
         | SelEdge item =>
             ∀ l, l ∈ fg_links (graphData st') → l_id l ≠ e_id item
         end)
  ∧ (∀ item, selectedItem st = Some (SelEdge item) →
       let st' := dispatch (UnlinkEdge (e_id item) (JS.Resolved tt)) st in
       selectedItem st' = None
       ∧ ∀ l, l ∈ fg_links (graphData st') → l_id l ≠ e_id item)
  ∧ selectedItem (dispatch ClosePanel st) = None
  ∧ (∀ x y newNode,
       selectedItem (dispatch (BackgroundClick x y (JS.Resolved newNode)) st)
       = Some (SelNode newNode))
  ∧ (∀ x y message,
       selectedItem (dispatch (BackgroundClick x y (JS.Rejected message)) st)
       = selectedItem st)
  ∧ (∀ a, length (option_list (selectedItem (dispatch a st))) ≤ 1)%nat.
Proof.
  split; [done|]. split; [done|]. split; [|split; [|split; [done|]]].
  - intros sel Hsel. simpl. unfold handleDeleteItem, onConfirm.
    rewrite Hsel. simpl. split; [done|].
    destruct sel as [item|item]; simpl.
    + intros n [Hn _]%list_elem_of_filter. done.
    + intros l [Hl _]%list_elem_of_filter. done.
  - intros item Hsel. simpl. unfold handleDeleteEdgeFromContext.
    rewrite Hsel. rewrite String.eqb_refl. simpl. split; [done|].
    intros l [Hl _]%list_elem_of_filter. done.
  - split; [done|]. split; [done|].
    intros a. destruct (selectedItem (dispatch a st)); simpl; lia.
Qed.

(** C8, as stated, fails for the background click: with node a selected, a
    click on the empty background whose node creation succeeds leaves the
    new node selected, and one whose creation fails leaves a selected. *)
Lemma background_click_keeps_a_selection :
  selectedItem sampleState = Some (SelNode node_a)
  ∧ selectedItem
      (dispatch (BackgroundClick (JS.num 5) (JS.num 7) (JS.Resolved node_c))
                sampleState)
    = Some (SelNode node_c)
  ∧ selectedItem
      (dispatch (BackgroundClick (JS.num 5) (JS.num 7)
                                 (JS.Rejected "Failed to create node"))
                sampleState)
    = Some (SelNode node_a).
Proof. split; [reflexivity|]. split; reflexivity. Qed.

End View.

(** ** Camera operations *)

Section Camera.
Import GraphCanvas.

Lemma scale_in_extent (s : JS.number) :
  inScaleExtent (s * JS.num (8 # 10))%Qc
  ↔ (JS.num (1 # 8) <= s)%Qc ∧ (s <= JS.num (25 # 4))%Qc.
Proof.
  unfold inScaleExtent, scaleExtent, JS.num, Qcle. simpl.
  rewrite !Qred_correct. split; intros [H1 H2]; split; lra.
Qed.

(** C2 (amended). For a drawn extent of positive width and height, on a
    mounted canvas, [fitToScreen] installs the transform whose scale is
    0.8 times the smaller of width ratio and height ratio, whatever its
    size: the scale lies within the scale extent [0.1, 5] exactly when that
    smaller ratio lies within [0.125, 6.25]. *)
Theorem fitToScreen_scale (fullWidth fullHeight : JS.number) (b : BBox)
    (c : Canvas) :
  mounted c = true → (0 < bbox_width b)%Qc → (0 < bbox_height b)%Qc →
  let ratio := JS.min (fullWidth / bbox_width b)%Qc
                      (fullHeight / bbox_height b)%Qc in
  let t := currentTransform (fitToScreen fullWidth fullHeight (Some b) c) in
  k t = (ratio * JS.num (8 # 10))%Qc
  ∧ (inScaleExtent (k t)
     ↔ (JS.num (1 # 8) <= ratio)%Qc ∧ (ratio <= JS.num (25 # 4))%Qc).
Proof.
  intros Hm Hw Hh. unfold fitToScreen. rewrite Hm. simpl.
  destruct (Qclt_le_dec 0 (bbox_width b)) as [_|Hle];
    [|by apply Qcle_not_lt in Hle].
  destruct (Qclt_le_dec 0 (bbox_height b)) as [_|Hle];
    [|by apply Qcle_not_lt in Hle].
  simpl. rewrite Qcmult_1_l. split; [done|]. apply scale_in_extent.
Qed.

Lemma fitToScreen_scale_witness :
  let t := currentTransform
             (fitToScreen (JS.num 800) (JS.num 600)
                (Some (mkBBox (JS.num 0) (JS.num 0) (JS.num 400) (JS.num 200)))
                sampleCanvas) in
  k t = (JS.min (JS.num 800 / JS.num 400) (JS.num 600 / JS.num 200)
         * JS.num (8 # 10))%Qc
  ∧ (inScaleExtent (k t)
     ↔ (JS.num (1 # 8)
        <= JS.min (JS.num 800 / JS.num 400) (JS.num 600 / JS.num 200))%Qc
       ∧ (JS.min (JS.num 800 / JS.num 400) (JS.num 600 / JS.num 200)
          <= JS.num (25 # 4))%Qc).
Proof.
  apply (fitToScreen_scale (JS.num 800) (JS.num 600)
           (mkBBox (JS.num 0) (JS.num 0) (JS.num 400) (JS.num 200))
           sampleCanvas).
  - reflexivity.
  - reflexivity.
  - reflexivity.
Defined.

(** C2, as stated, fails for a small and for a large extent: on a canvas
    of 800 by 600 an extent of 1 by 1 is fitted at scale 480, above 5, and
    an extent of 100000 by 100000 at scale 0.0048, below 0.1. *)
Lemma fitToScreen_leaves_scale_extent :
  (0 < bbox_width unitBox)%Qc ∧ (0 < bbox_height unitBox)%Qc
  ∧ k (currentTransform
         (fitToScreen (JS.num 800) (JS.num 600) (Some unitBox) sampleCanvas))
    = JS.num 480
  ∧ ¬ inScaleExtent
        (k (currentTransform
              (fitToScreen (JS.num 800) (JS.num 600) (Some unitBox)
                           sampleCanvas)))
  ∧ ¬ inScaleExtent
        (k (currentTransform
              (fitToScreen (JS.num 800) (JS.num 600)
                 (Some (mkBBox (JS.num 0) (JS.num 0) (JS.num 100000)
                               (JS.num 100000)))
                 sampleCanvas))).
Proof.
  split; [reflexivity|]. split; [reflexivity|].
  split; [apply Qc_is_canon; reflexivity|].
  split; intros [H1 H2]; vm_compute in H1, H2; [by apply H2|by apply H1].
Qed.

(** C7 (amended). After an empty snapshot reaches a mounted canvas, the
    store and the simulation are as before; a call of the stored fit
    function returns and sets the view transform to scale 1 translated by
    half the width and half the height, whatever the transform was; a call
    of the stored centre function changes nothing. *)
Theorem empty_snapshot_camera (c : Canvas) (bounds : option BBox)
    (nodeId : string) :
  mounted c = true →
  let c' := updateData [] c in
  store c' = store c ∧ simulation c' = simulation c
  ∧ currentTransform c' = currentTransform c
  ∧ invokeFitToScreen bounds c'
    = setTransform
        (mkTransform 1%Qc (fst (dimensions c) / JS.num 2)%Qc
                     (snd (dimensions c) / JS.num 2)%Qc) c'
  ∧ invokeCenterOnNode nodeId c' = c'.
Proof.
  intros Hm. unfold updateData. rewrite Hm. simpl.
  destruct (dimensions c) as [w h] eqn:Hd. simpl.
  split; [done|]. split; [done|]. split; [done|]. split; [|done].
  unfold invokeFitToScreen, emptyFitFunction. simpl. rewrite Hm.
  unfold scale, translate. simpl.
  by rewrite !Qcmult_1_l, !Qcplus_0_l.
Qed.

Lemma empty_snapshot_camera_witness :
  mounted sampleCanvas = true
  ∧ currentTransform
      (invokeFitToScreen (Some unitBox) (updateData [] sampleCanvas))
    = mkTransform 1%Qc (JS.num 800 / JS.num 2)%Qc (JS.num 600 / JS.num 2)%Qc
  ∧ invokeCenterOnNode "a" (updateData [] sampleCanvas)
    = updateData [] sampleCanvas.
Proof.
  split; [reflexivity|].
  destruct (empty_snapshot_camera sampleCanvas (Some unitBox) "a" eq_refl)
    as (_ & _ & _ & Hfit & Hcenter).
  split; [|exact Hcenter]. rewrite Hfit. reflexivity.
Defined.

(** C7, as stated, fails for the fit function: on the empty snapshot it
    replaces the transform of scale 2 at (10, 20) by the one of scale 1 at
    (400, 300). *)
Lemma empty_fit_resets_the_view :
  currentTransform (updateData [] sampleCanvas)
  = mkTransform (JS.num 2) (JS.num 10) (JS.num 20)
  ∧ currentTransform
      (invokeFitToScreen None (updateData [] sampleCanvas))
    = mkTransform 1%Qc (JS.num 400) (JS.num 300)
  ∧ invokeFitToScreen None (updateData [] sampleCanvas)
    ≠ updateData [] sampleCanvas.
Proof.
  split; [reflexivity|].
  assert (H : currentTransform
                (invokeFitToScreen None (updateData [] sampleCanvas))
              = mkTransform 1%Qc (JS.num 400) (JS.num 300)).
  { unfold invokeFitToScreen, updateData, emptyFitFunction. simpl.
    unfold scale, translate. simpl. f_equal; apply Qc_is_canon; reflexivity. }
  split; [exact H|]. intros Heq. rewrite Heq in H. discriminate H.
Qed.

End Camera.
(** ** Reconciliation of a snapshot with the simulation *)

Section Reconciliation.
Import GraphCanvas.

Lemma find_node_Some (h : list ForceGraphNode) nodes i e en :
  find_node h nodes i = Some (e, en) →
  e ∈ nodes ∧ h !! e = Some en ∧ n_id en = i.
Proof.
  induction nodes as [|l nodes IH]; simpl; [done|].
  destruct (h !! l) as [n|] eqn:Hl.
  - destruct (String.eqb_spec (n_id n) i) as [Heq|Hne].
    + intros [= <- <-]. split; [by left|done].
    + intros H. destruct (IH H) as (? & ? & ?). split; [by right|done].
  - intros H. destruct (IH H) as (? & ? & ?). split; [by right|done].
Qed.

(** The reference found depends on the ids in the store only. *)
Lemma find_node_ids (h h' : list ForceGraphNode) nodes i :
  (∀ l, n_id <$> h' !! l = n_id <$> h !! l) →
  fst <$> find_node h' nodes i = fst <$> find_node h nodes i.
Proof.
  intros Hids. induction nodes as [|l nodes IH]; simpl; [done|].
  specialize (Hids l).
  destruct (h' !! l) as [n'|], (h !! l) as [n|]; simpl in Hids;
    try discriminate; [|done].
  injection Hids as ->. by destruct (String.eqb (n_id n) i).
Qed.

Lemma or_zero_idem (v : option JS.number) :
  JS.or_zero (Some (JS.or_zero v)) = JS.or_zero v.
Proof.
  unfold JS.or_zero. destruct v as [q|]; [|done].
  destruct (bool_decide (q = 0%Qc)) eqn:Hq; [done|]. by rewrite Hq.
Qed.

Lemma or_zero_Some (q : JS.number) : JS.or_zero (Some q) = q.
Proof. unfold JS.or_zero. case_bool_decide; by subst. Qed.

Section Loop.
Variable h0 : list ForceGraphNode.
Variable existingNodes : list nat.

Local Abbreviation loop_inv := (loop_inv h0 existingNodes).
Local Abbreviation settled := (settled h0 existingNodes).

Lemma loop_inv_ids h l :
  loop_inv h → n_id <$> h !! l = n_id <$> h0 !! l.
Proof.
  intros [H _]. specialize (H l).
  destruct (h !! l), (h0 !! l); simplify_eq/=; [|done]. congruence.
Qed.

Lemma loop_inv_find h i e en0 :
  loop_inv h → find_node h0 existingNodes i = Some (e, en0) →
  ∃ en, find_node h existingNodes i = Some (e, en) ∧ stable en en0.
Proof.
  intros Hinv Hf.
  pose proof (find_node_ids h0 h existingNodes i
                (fun l => loop_inv_ids h l Hinv)) as Hfst.
  rewrite Hf in Hfst.
  destruct (find_node h existingNodes i) as [[e' en]|] eqn:Hf';
    simplify_eq/=.
  exists en. split; [done|].
  apply find_node_Some in Hf' as (_ & Hl & _).
  destruct Hinv as (_ & H3 & _). destruct (H3 _ _ _ Hf) as (en' & Hl' & Hst).
  by simplify_eq.
Qed.

Lemma loop_inv_find_None h i :
  loop_inv h → find_node h0 existingNodes i = None →
  find_node h existingNodes i = None.
Proof.
  intros Hinv Hf.
  pose proof (find_node_ids h0 h existingNodes i
                (fun l => loop_inv_ids h l Hinv)) as Hfst.
  rewrite Hf in Hfst. by destruct (find_node h existingNodes i).
Qed.

Lemma carry_stable en en0 n m :
  stable en en0 → identity n = identity m → n_index n = n_index m →
  carry en n = carry en0 m.
Proof.
  intros (Hx & Hy & Hfx & Hfy & Hvx & Hvy) Hid Hidx.
  unfold identity in Hid. simplify_eq.
  unfold carry, withMotion. congruence.
Qed.

Lemma carry_self_stable n : stable (carry n n) n.
Proof. unfold stable, carry. simpl. by rewrite !or_zero_idem. Qed.

Lemma preserveNode_step h l :
  loop_inv h →
  loop_inv (preserveNode existingNodes h l)
  ∧ settled l (preserveNode existingNodes h l)
  ∧ (∀ l', settled l' h → settled l' (preserveNode existingNodes h l)).
Proof.
  intros Hinv. unfold preserveNode.
  destruct (h !! l) as [n|] eqn:Hl.
  2:{ split; [done|]. split; [|done]. intros n0 Hn0.
      destruct Hinv as [H1 _]. specialize (H1 l).
      rewrite Hl, Hn0 in H1. done. }
  assert (Hsame : ∃ n0, h0 !! l = Some n0 ∧ identity n = identity n0
                        ∧ n_index n = n_index n0).
  { destruct Hinv as [H1 _]. specialize (H1 l). rewrite Hl in H1.
    destruct (h0 !! l) as [n0|]; simplify_eq/=.
    exists n0. unfold identity. repeat split; congruence. }
  destruct Hsame as (n0 & Hn0 & Hid & Hidx).
  assert (Hnid : n_id n = n_id n0).
  { unfold identity in Hid. by simplify_eq. }
  assert (Hlt : (l < length h)%nat) by by eapply lookup_lt_Some.
  destruct (find_node h0 existingNodes (n_id n0)) as [[e en0]|] eqn:Hf0.
  - destruct (loop_inv_find h _ _ _ Hinv Hf0) as (en & Hf & Hst).
    rewrite Hnid, Hf.
    rewrite (carry_stable en en0 n n0 Hst Hid Hidx).
    split; [|split].
    + destruct Hinv as (H1 & H3 & Hun). split; [|split].
      * intros l'. destruct (decide (l = l')) as [<-|Hne].
        -- rewrite list_lookup_insert_eq by done. by rewrite Hn0.
        -- rewrite list_lookup_insert_ne by done. apply H1.
      * intros i e' en0' Hf'. destruct (decide (l = e')) as [<-|Hne].
        -- rewrite list_lookup_insert_eq by done. eexists. split; [done|].
           pose proof (find_node_Some _ _ _ _ _ Hf') as (_ & Hl0 & Hi).
           simplify_eq. apply carry_self_stable.
        -- rewrite list_lookup_insert_ne by done. by eapply H3.
      * intros l' m Hm Hnone. destruct (decide (l = l')) as [<-|Hne].
        -- simplify_eq.
        -- rewrite list_lookup_insert_ne by done. by apply Hun.
    + intros m Hm. simplify_eq. rewrite Hf0.
      by rewrite list_lookup_insert_eq.
    + intros l' Hs m Hm. specialize (Hs m Hm).
      destruct (decide (l = l')) as [<-|Hne].
      * simplify_eq. rewrite Hf0. by rewrite list_lookup_insert_eq.
      * by rewrite list_lookup_insert_ne.
  - rewrite Hnid, (loop_inv_find_None h _ Hinv Hf0).
    split; [done|]. split; [|done].
    intros m Hm. simplify_eq. rewrite Hf0.
    destruct Hinv as (_ & _ & Hun). by apply Hun.
Qed.

Lemma loop_inv_start : loop_inv h0.
Proof.
  split; [done|]. split; [|done].
  intros i e en0 (_ & Hl & _)%find_node_Some. by exists en0.
Qed.

Lemma preserveExisting_fold newNodes h :
  loop_inv h →
  loop_inv (preserveExisting existingNodes newNodes h)
  ∧ (∀ l, l ∈ newNodes ∨ settled l h →
          settled l (preserveExisting existingNodes newNodes h)).
Proof.
  revert h. induction newNodes as [|l newNodes IH]; intros h Hinv; simpl.
  - split; [done|]. intros l [?%elem_of_nil|?]; done.
  - destruct (preserveNode_step h l Hinv) as (Hinv' & Hl & Hkeep).
    destruct (IH _ Hinv') as [Hinv'' Hs]. split; [done|].
    intros l' [[->|Hin]%elem_of_cons|Hset]; apply Hs; auto.
Qed.

End Loop.

(** C1. When a snapshot is reconciled with a simulation whose nodes are
    registered, every new node object whose id is the id of a simulation
    node leaves the loop, before the nodes are handed to the simulation,
    with the x, y, vx, vy, fx and fy of that simulation node and its own
    other fields; a new node object without such a node is untouched. *)
Theorem preserveExisting_carries_forward (h : list ForceGraphNode)
    (existingNodes newNodes : list nat) (l : nat) (newNode : ForceGraphNode) :
  registered h existingNodes →
  l ∈ newNodes → h !! l = Some newNode →
  match find_node h existingNodes (n_id newNode) with
  | Some (_, existingNode) =>
      ∃ n', preserveExisting existingNodes newNodes h !! l = Some n'
            ∧ same_motion n' existingNode
            ∧ identity n' = identity newNode
  | None => preserveExisting existingNodes newNodes h !! l = Some newNode
  end.
Proof.
  intros Hreg Hin Hl.
  destruct (preserveExisting_fold h existingNodes newNodes h
              (loop_inv_start h existingNodes)) as [_ Hs].
  specialize (Hs l (or_introl Hin) newNode Hl).
  destruct (find_node h existingNodes (n_id newNode)) as [[e en]|] eqn:Hf;
    [|done].
  exists (carry en newNode). split; [done|]. split; [|done].
  apply find_node_Some in Hf as (He & Hle & _).
  destruct (Hreg e en He Hle) as [[vx Hvx] [vy Hvy]].
  unfold same_motion, carry. simpl. rewrite Hvx, Hvy, !or_zero_Some. done.
Qed.

End Reconciliation.

(** ** Loops over the registered nodes *)

Section ForEachNode.
Import GraphCanvas.
Implicit Types (h : list ForceGraphNode) (n : ForceGraphNode).

Lemma assign_length d g h : length (assign d g h) = length h.
Proof. unfold assign. destruct (h !! d); [apply length_insert|done]. Qed.

Lemma assign_lookup_ne d g h l : d ≠ l → assign d g h !! l = h !! l.
Proof.
  intros Hne. unfold assign. destruct (h !! d); [|done].
  by apply list_lookup_insert_ne.
Qed.

Lemma assign_lookup_eq d g h n :
  h !! d = Some n → assign d g h !! d = Some (g n).
Proof.
  intros Hd. unfold assign. rewrite Hd.
  apply list_lookup_insert_eq. by eapply lookup_lt_Some.
Qed.

Lemma assign_lookup_None d g h l : h !! l = None → assign d g h !! l = None.
Proof.
  intros Hl. destruct (decide (d = l)) as [->|Hne].
  - unfold assign. by rewrite Hl.
  - by rewrite assign_lookup_ne.
Qed.

Variable f : nat → ForceGraphNode → ForceGraphNode.

Lemma forEachNode_length nodes i h :
  length (forEachNode f i nodes h) = length h.
Proof.
  revert i h. induction nodes as [|l nodes IH]; intros i h; simpl; [done|].
  by rewrite IH, assign_length.
Qed.

Lemma forEachNode_None nodes i h l :
  h !! l = None → forEachNode f i nodes h !! l = None.
Proof.
  revert i h. induction nodes as [|d nodes IH]; intros i h Hl; simpl; [done|].
  by apply IH, assign_lookup_None.
Qed.

(** A property that every iteration keeps holds at the end where it held
    at the start. *)
Lemma forEachNode_stable (Q : ForceGraphNode → Prop) nodes i h l n :
  (∀ i n, Q n → Q (f i n)) →
  h !! l = Some n → Q n →
  ∃ n', forEachNode f i nodes h !! l = Some n' ∧ Q n'.
Proof.
  intros HQ. revert i h n.
  induction nodes as [|d nodes IH]; intros i h n Hl Hn; simpl.
  - by exists n.
  - destruct (decide (d = l)) as [->|Hne].
    + apply (IH _ _ (f i n)); [by apply assign_lookup_eq|by apply HQ].
    + apply (IH _ _ n); [by rewrite assign_lookup_ne|done].
Qed.

(** A property that an iteration establishes, and keeps, holds at the end
    for every object of the array. *)
Lemma forEachNode_reach (P Q : ForceGraphNode → Prop) nodes i h l n :
  (∀ i n, P n → P (f i n)) → (∀ i n, P n → Q (f i n)) →
  (∀ i n, Q n → Q (f i n)) →
  l ∈ nodes → h !! l = Some n → P n →
  ∃ n', forEachNode f i nodes h !! l = Some n' ∧ Q n'.
Proof.
  intros HP HPQ HQ. revert i h n.
  induction nodes as [|d nodes IH]; intros i h n Hin Hl Hn; simpl.
  - by apply elem_of_nil in Hin.
  - destruct (decide (d = l)) as [->|Hne].
    + apply (forEachNode_stable Q _ _ _ _ (f i n)); [done| |by apply HPQ].
      by apply assign_lookup_eq.
    + apply elem_of_cons in Hin as [->|Hin]; [done|].
      apply (IH _ _ n); [done|by rewrite assign_lookup_ne|done].
Qed.

Lemma forEachNode_ids nodes i h l :
  (∀ i n, n_id (f i n) = n_id n) →
  n_id <$> forEachNode f i nodes h !! l = n_id <$> h !! l.
Proof.
  intros Hid. destruct (h !! l) as [n|] eqn:Hl.
  - destruct (forEachNode_stable (fun m => n_id m = n_id n) nodes i h l n)
      as (n' & -> & Hn'); [|done|done|by simpl; rewrite Hn'].
    intros j m Hm. by rewrite Hid.
  - by rewrite forEachNode_None.
Qed.

(** A lookup by id finds the same object after the loop, with every
    property the iterations keep. *)
Lemma forEachNode_find (Q : ForceGraphNode → Prop) nodes i h among a l n :
  (∀ i n, n_id (f i n) = n_id n) → (∀ i n, Q n → Q (f i n)) →
  find_node h among a = Some (l, n) → Q n →
  ∃ n', find_node (forEachNode f i nodes h) among a = Some (l, n') ∧ Q n'.
Proof.
  intros Hid HQ Hf Hn.
  pose proof (find_node_ids h (forEachNode f i nodes h) among a
                (fun l => forEachNode_ids nodes i h l Hid)) as Hfst.
  rewrite Hf in Hfst.
  destruct (find_node (forEachNode f i nodes h) among a) as [[l' n']|] eqn:Hf';
    simplify_eq/=.
  exists n'. split; [done|].
  apply find_node_Some in Hf as (_ & Hl & _).
  apply find_node_Some in Hf' as (_ & Hl' & _).
  destruct (forEachNode_stable Q nodes i h l n HQ Hl Hn) as (m & Hm & HQm).
  by simplify_eq.
Qed.

End ForEachNode.

(** ** Every node of the simulation is registered *)

Section Registered.
Import GraphCanvas.

Lemma initializeNode_has_velocity i n : has_velocity (initializeNode i n).
Proof. split; by eexists. Qed.

Lemma moveNode_has_velocity v n : has_velocity (moveNode v n).
Proof. split; by eexists. Qed.

Lemma initializeNodes_registered nodes (h : list ForceGraphNode) :
  registered (initializeNodes nodes h) nodes.
Proof.
  intros l n Hin Hl. unfold initializeNodes in Hl.
  destruct (h !! l) as [m|] eqn:Hm.
  - destruct (forEachNode_reach initializeNode (fun _ => True) has_velocity
                nodes 0 h l m (fun _ _ _ => I)
                (fun i n _ => initializeNode_has_velocity i n)
                (fun i n _ => initializeNode_has_velocity i n) Hin Hm I)
      as (n' & Hn' & Hv).
    by simplify_eq.
  - by rewrite forEachNode_None in Hl.
Qed.

(** After a snapshot with nodes has reached a mounted canvas, and after any
    step of the simulation, the nodes of the simulation are registered. *)
Lemma reheat_nodes sim : sim_nodes (reheat sim) = sim_nodes sim.
Proof. unfold reheat. by destruct (Qclt_le_dec _ _). Qed.

Lemma updateData_registered data c :
  mounted c = true → data ≠ [] →
  registered (store (updateData data c))
             (sim_nodes (simulation (updateData data c))).
Proof.
  intros Hm Hne. unfold updateData. rewrite Hm. simpl.
  destruct (dimensions c) as [w hh]. destruct data as [|l data]; [done|].
  simpl. rewrite reheat_nodes. apply initializeNodes_registered.
Qed.

Lemma tick_registered forces c :
  registered (store c) (sim_nodes (simulation c)) →
  registered (store (tick forces c)) (sim_nodes (simulation (tick forces c))).
Proof.
  intros Hreg l n Hin Hl. simpl in *.
  destruct (store c !! l) as [m|] eqn:Hm.
  - match type of Hl with
    | forEachNode ?g _ _ _ !! _ = _ =>
        destruct (forEachNode_stable g has_velocity
                    (sim_nodes (simulation c)) 0 (store c) l m
                    (fun _ n _ => moveNode_has_velocity _ n) Hm
                    (Hreg l m Hin Hm))
          as (n' & Hn' & Hv)
    end.
    by simplify_eq.
  - by rewrite forEachNode_None in Hl.
Qed.

Lemma assign_registered d g (h : list ForceGraphNode) nodes :
  (∀ n, has_velocity n → has_velocity (g n)) →
  registered h nodes → registered (assign d g h) nodes.
Proof.
  intros Hg Hreg l n Hin Hl. destruct (decide (d = l)) as [<-|Hne].
  - destruct (h !! d) as [m|] eqn:Hm.
    + rewrite (assign_lookup_eq _ _ _ _ Hm) in Hl. injection Hl as <-.
      apply Hg. by apply (Hreg d).
    + by rewrite assign_lookup_None in Hl.
  - rewrite assign_lookup_ne in Hl by done. by apply (Hreg l).
Qed.

(** The drag handlers assign to the pin only. *)
Lemma drag_registered event d c :
  registered (store c) (sim_nodes (simulation c)) →
  registered (store (dragStart event d c))
             (sim_nodes (simulation (dragStart event d c)))
  ∧ registered (store (snd (drag event d c)))
               (sim_nodes (simulation (snd (drag event d c))))
  ∧ registered (store (snd (dragEnd event d c)))
               (sim_nodes (simulation (snd (dragEnd event d c)))).
Proof.
  intros Hreg. unfold dragStart, drag, dragEnd.
  destruct (ev_active event); cbn [store simulation snd setSimulation
                                   setStore sim_nodes];
    (split; [|split]); by apply assign_registered.
Qed.

End Registered.

(** ** Dragging and pinning *)

Section Drag.
Import GraphCanvas.
Implicit Types (h : list ForceGraphNode) (n : ForceGraphNode) (c : Canvas).

Lemma moveNode_standing px py v n :
  standing px py n → standing px py (moveNode v n).
Proof.
  intros (Hfx & Hfy & Hx & Hy). unfold standing, moveNode. simpl.
  by rewrite Hfx, Hfy.
Qed.

Lemma initializeNode_standing px py i n :
  standing px py n → standing px py (initializeNode i n).
Proof.
  intros (Hfx & Hfy & Hx & Hy). unfold standing, initializeNode. simpl.
  by rewrite Hfx, Hfy.
Qed.

Create HintDb motion.
#[local] Hint Resolve moveNode_standing initializeNode_standing : motion.


Lemma preserveExisting_length existingNodes newNodes h :
  length (preserveExisting existingNodes newNodes h) = length h.
Proof.
  revert h. induction newNodes as [|l newNodes IH]; intros h; simpl; [done|].
  rewrite IH. unfold preserveNode.
  destruct (h !! l); [|done].
  destruct (find_node _ _ _) as [[? ?]|]; [apply length_insert|done].
Qed.








Lemma find_node_assign h nodes a d n g :
  find_node h nodes a = Some (d, n) → n_id (g n) = n_id n →
  find_node (assign d g h) nodes a = Some (d, g n).
Proof.
  intros Hf Hid. pose proof (find_node_Some _ _ _ _ _ Hf) as (_ & Hd & _).
  assert (Hids : ∀ l, n_id <$> assign d g h !! l = n_id <$> h !! l).
  { intros l. destruct (decide (d = l)) as [<-|Hne].
    - rewrite (assign_lookup_eq _ _ _ _ Hd), Hd. simpl. by rewrite Hid.
    - by rewrite assign_lookup_ne. }
  pose proof (find_node_ids h (assign d g h) nodes a Hids) as Hfst.
  rewrite Hf in Hfst.
  destruct (find_node (assign d g h) nodes a) as [[d' m]|] eqn:Hf'; [|done].
  injection Hfst as ->.
  apply find_node_Some in Hf' as (_ & Hd' & _).
  rewrite (assign_lookup_eq _ _ _ _ Hd) in Hd'. by injection Hd' as <-.
Qed.

Lemma tick_moves_to_pin forces a ex ey d n c :
  find_node (store c) (sim_nodes (simulation c)) a = Some (d, n) →
  n_fx n = Some ex → n_fy n = Some ey →
  pinnedAt a ex ey (tick forces c).
Proof.
  intros Hf Hfx Hfy.
  pose proof (find_node_Some _ _ _ _ _ Hf) as (Hin & Hd & _).
  unfold pinnedAt, tick.
  cbn [store simulation setSimulation setStore sim_nodes].
  match goal with
  | |- context [forEachNode ?g 0 _ _] => set (step := g)
  end.
  set (P := fun m => n_fx m = Some ex ∧ n_fy m = Some ey).
  assert (HP : ∀ i m, P m → P (step i m)) by (by intros i m [H1 H2]).
  assert (HPQ : ∀ i m, P m → standing ex ey (step i m)).
  { intros i m [H1 H2]. unfold standing, step, moveNode. simpl.
    by rewrite H1, H2. }
  assert (HQ : ∀ i m, standing ex ey m → standing ex ey (step i m)).
  { unfold step. auto with motion. }
  destruct (forEachNode_reach step P (standing ex ey)
              (sim_nodes (simulation c)) 0 (store c) d n
              HP HPQ HQ Hin Hd (conj Hfx Hfy))
    as (n' & Hn' & Hst').
  destruct (forEachNode_find step (fun _ => True)
              (sim_nodes (simulation c)) 0 (store c)
              (sim_nodes (simulation c)) a d n
              (fun _ _ => eq_refl) (fun _ _ _ => I) Hf I)
    as (n'' & Hf'' & _).
  exists d, n''. split; [done|].
  apply find_node_Some in Hf'' as (_ & Hd'' & _).
  rewrite Hn' in Hd''. by injection Hd'' as <-.
Qed.


End Drag.

(** ** The sample scene *)

Section Samples.
Import GraphCanvas.

Example sampleScene_nodes :
  sim_nodes (simulation sampleScene) = [0; 1]%nat
  ∧ store sampleScene = [initializeNode 0 node_a; initializeNode 1 node_b].
Proof. split; reflexivity. Qed.

Lemma preserveExisting_carries_forward_witness :
  registered (store sampleScene ++ [copy_of_a]) [0; 1]%nat
  ∧ ∃ n', preserveExisting [0; 1]%nat [2; 1]%nat
            (store sampleScene ++ [copy_of_a]) !! 2%nat = Some n'
          ∧ same_motion n' (initializeNode 0 node_a)
          ∧ identity n' = identity copy_of_a.
Proof.
  assert (Hreg : registered (store sampleScene ++ [copy_of_a])
                            [0; 1]%nat).
  { intros l n Hin Hl. apply list_elem_of_In in Hin.
    destruct Hin as [<-|[<-|[]]]; injection Hl as <-; split; by eexists. }
  split; [exact Hreg|].
  exact (preserveExisting_carries_forward
           (store sampleScene ++ [copy_of_a]) [0; 1]%nat [2; 1]%nat 2%nat
           copy_of_a Hreg (list_elem_of_here _ _) eq_refl).
Defined.



(** The hypothesis of [drag_pins_node], that the dragged object is the one
    the simulation holds for its id, is about the host as well.  When the
    host answers a pointer-move with a snapshot in which the dragged node is
    a new object, as [GraphView.handleNodeDrag] builds it, the simulation
    holds that new object from then on; a pointer-move that still assigns to
    the object the gesture started with does not reach it, and the
    reconciliation gives the next copy the pin of the first move. *)
Example replaced_subject_keeps_first_pin :
  let move1 := mkDragEvent (JS.num 70) (JS.num 80) 0 in
  let move2 := mkDragEvent (JS.num 90) (JS.num 95) 0 in
  let c1 := snd (drag move1 0 sampleScene) in
  let m1 := default node_a (store c1 !! 0%nat) in
  let c2 :=
    later noForces (Snapshot [GraphView.withPosition m1 m1] [2; 1]%nat) c1 in
  let c3 := snd (drag move2 0 c2) in
  let m2 := default node_a (store c3 !! 0%nat) in
  let held := default node_a (store c3 !! 2%nat) in
  let c4 :=
    later noForces (Snapshot [GraphView.withPosition m2 held] [3; 1]%nat) c3 in
  n_fx m2 = Some (JS.num 90) ∧ n_fy m2 = Some (JS.num 95)
  ∧ pinnedAt "a" (JS.num 70) (JS.num 80) c4.
Proof.
  vm_compute. split; [reflexivity|]. split; [reflexivity|].
  eexists _, _. split; [reflexivity|]. repeat split; reflexivity.
Qed.

End Samples.

(** * Further properties of the components *)

(** ** The held graph stays closed *)

Section Closed.
Import GraphView GraphViewEdit.

Lemma findById_elem nodes i :
  i ∈ map n_id nodes → is_Some (GraphCanvas.findById nodes i).
Proof.
  induction nodes as [|n nodes IH]; simpl.
  - by intros ?%elem_of_nil.
  - destruct (String.eqb_spec (n_id n) i) as [Heq|Hne]; [by eexists|].
    intros [?|?]%elem_of_cons; [congruence|by apply IH].
Qed.






End Closed.

(** ** Conversion, selection and the context menu together *)

Section ViewAndMenu.
Import GraphView GraphViewEdit GraphCanvas.

Lemma filter_split_length {B : Type} (P : B → Prop) `{!∀ x, Decision (P x)}
    (l : list B) :
  (length (filter P l) + length (filter (fun x => ¬ P x) l) = length l)%nat.
Proof.
  induction l as [|x l IH]; [done|].
  rewrite !filter_cons. destruct (decide (P x)) as [HP|HP].
  - destruct (decide (¬ P x)); [done|]. simpl. lia.
  - destruct (decide (¬ P x)); [|done]. simpl. lia.
Qed.

Lemma toForceNode_idem node : toForceNode (toForceNode node) = toForceNode node.
Proof.
  destruct node as [i o lb ty pr x y fx fy ca ua vx vy ix].
  unfold toForceNode, with_id, JS.or_string. simpl.
  destruct o as [v|]; [|done]. by destruct (String.eqb v EmptyString).
Qed.

Lemma resolves_nil (edges : list GraphEdge) : filter (resolves []) edges = [].
Proof.
  induction edges as [|e es IH]; [done|].
  rewrite filter_cons. case_decide as He; [|exact IH].
  destruct He as [Hs _]. by apply elem_of_nil in Hs.
Qed.

(** X2. The conversion accounts for every edge of the snapshot exactly
    once, as a link or as a warning, keeps the number of nodes, and yields
    nodes whose id is already normalised (converting one again changes
    nothing).  A snapshot without nodes yields no link. *)
Theorem convertToForceGraphData_accounts_for_edges (data : GraphData) :
  let g := fst (convertToForceGraphData data) in
  let warnings := snd (convertToForceGraphData data) in
  length (fg_nodes g) = length (gd_nodes data)
  ∧ (length (fg_links g) + length warnings = length (gd_edges data))%nat
  ∧ Forall (fun n => toForceNode n = n) (fg_nodes g)
  ∧ (gd_nodes data = [] →
     fg_links g = [] ∧ length warnings = length (gd_edges data)).
Proof.
  simpl.
  destruct (toLink_edges (map toForceNode (gd_nodes data)) (gd_edges data))
    as [H1 H2].
  set (ids := map n_id (map toForceNode (gd_nodes data))) in *.
  assert (Hacc : (length (omap fst (map (toLink (buildNodeMap
                     (map toForceNode (gd_nodes data)))) (gd_edges data)))
                  + length (concat (map snd (map (toLink (buildNodeMap
                     (map toForceNode (gd_nodes data)))) (gd_edges data))))
                  = length (gd_edges data))%nat).
  { rewrite H2, length_map. rewrite <- (Forall2_length _ _ _ H1).
    apply filter_split_length. }
  split; [by rewrite length_map|]. split; [exact Hacc|]. split.
  - apply Forall_forall. intros n Hn.
    apply list_elem_of_In, in_map_iff in Hn as (m & <- & _).
    apply toForceNode_idem.
  - intros Hnil. subst ids. rewrite Hnil in *. simpl in *.
    rewrite resolves_nil in H1. apply Forall2_nil_inv_l in H1.
    rewrite H1 in *. simpl in Hacc. done.
Qed.

(** X3. A click on a link of the converted data selects the backend edge
    the link was made from, under its normalised id: turning the resolving
    edges into links and the links back into basic edges is the identity up
    to the id. *)
Theorem converted_links_select_their_edges (data : GraphData) :
  let g := fst (convertToForceGraphData data) in
  map toBasicEdge (fg_links g)
  = map normaliseEdge
        (filter (resolves (map n_id (fg_nodes g))) (gd_edges data))
  ∧ ∀ st l, selectedItem (handleEdgeClick l st) = Some (SelEdge (toBasicEdge l)).
Proof.
  simpl. split; [|done].
  destruct (toLink_edges (map toForceNode (gd_nodes data)) (gd_edges data))
    as [H1 _].
  induction H1 as [|e l es ls Hl _ IH]; [done|]. simpl. f_equal; [|exact IH].
  destruct Hl as (_ & Hs & _ & Ht & Hid & H_id & Hlb & Hp & Hd & Hc & Hu).
  unfold toBasicEdge, normaliseEdge. congruence.
Qed.

Lemma connectedOf_length nodes s link :
  n_id (l_source link) ∈ map n_id nodes →
  n_id (l_target link) ∈ map n_id nodes →
  length (connectedOf nodes s link)
  = if decide (incident s link) then 1%nat else 0%nat.
Proof.
  intros [sn Hs]%findById_elem [tn Ht]%findById_elem.
  unfold connectedOf, incident. rewrite Hs, Ht.
  destruct (String.eqb_spec (n_id (l_source link)) s);
    destruct (String.eqb_spec (n_id (l_target link)) s);
    case_decide; simpl; tauto.
Qed.

(** X4. On a closed graph the context menu misses no link: for every
    source id the connected list has exactly one entry for each link
    incident to it. *)
Theorem connected_list_counts_incident_links (g : ForceGraphData)
    (s : string) :
  closed g →
  length (getConnectedNodesInfo g s)
  = length (filter (incident s) (fg_links g)).
Proof.
  intros Hc. unfold getConnectedNodesInfo. rewrite foldl_push. simpl.
  unfold closed in Hc. revert Hc.
  generalize (fg_nodes g). intros nodes.
  induction (fg_links g) as [|link links IH]; intros Hc; [done|].
  simpl. rewrite length_app, filter_cons.
  destruct (Hc link) as [Hs Ht]; [by left|].
  rewrite (connectedOf_length nodes s link Hs Ht).
  rewrite IH by (intros l Hl; apply Hc; by right).
  by case_decide.
Qed.

Lemma connected_list_counts_incident_links_witness :
  closed sampleGraph
  ∧ length (getConnectedNodesInfo sampleGraph "a")
    = length (filter (incident "a") (fg_links sampleGraph)).
Proof.
  assert (Hc : closed sampleGraph).
  { intros l Hl. apply list_elem_of_In in Hl.
    destruct Hl as [<-|[<-|[]]]; split; apply list_elem_of_In; simpl; tauto. }
  split; [exact Hc|].
  exact (connected_list_counts_incident_links sampleGraph "a" Hc).
Defined.

Lemma connectedNodeIds_snoc nodes links link s :
  connectedNodeIds (mkForceGraphData nodes (links ++ [link])) s
  = (if String.eqb (n_id (l_source link)) s
     then {[n_id (l_target link)]} ∪ connectedNodeIds
                                        (mkForceGraphData nodes links) s
     else if String.eqb (n_id (l_target link)) s
          then {[n_id (l_source link)]} ∪ connectedNodeIds
                                             (mkForceGraphData nodes links) s
          else connectedNodeIds (mkForceGraphData nodes links) s).
Proof. unfold connectedNodeIds. simpl. by rewrite foldl_app. Qed.

(** X5. Once the backend has created the edge from [sourceId] to
    [targetId], both held, the new link is the last entry of the connected
    list of the source (outgoing, towards the target node) and, for distinct
    ids, of the target (incoming, from the source node); the target is no
    longer offered as an unconnected node of the source; and the new edge
    is the selection. *)
Theorem created_edge_moves_target_to_connected (st : State)
    (sourceId targetId : string) (newEdge : GraphEdge)
    (sourceNode targetNode : ForceGraphNode) :
  findById (fg_nodes (graphData st)) sourceId = Some sourceNode →
  findById (fg_nodes (graphData st)) targetId = Some targetNode →
  let st' := handleCreateEdge sourceId targetId (JS.Resolved newEdge) st in
  let id := JS.or_string (e__id newEdge) (e_id newEdge) in
  fg_nodes (graphData st') = fg_nodes (graphData st)
  ∧ getConnectedNodesInfo (graphData st') sourceId
    = (getConnectedNodesInfo (graphData st) sourceId
       ++ [mkConnectedInfo targetNode id true])%list
  ∧ (sourceId ≠ targetId →
     getConnectedNodesInfo (graphData st') targetId
     = (getConnectedNodesInfo (graphData st) targetId
        ++ [mkConnectedInfo sourceNode id false])%list)
  ∧ (∀ n, n ∈ getUnconnectedNodes (graphData st') sourceId →
          n_id n ≠ targetId ∧ n ∈ getUnconnectedNodes (graphData st) sourceId)
  ∧ selectedItem st' = Some (SelEdge (normaliseEdge
        (mkEdge (e_id newEdge) (e__id newEdge) sourceId targetId
                (e_label newEdge) (e_properties newEdge) (e_directed newEdge)
                (e_createdAt newEdge) (e_updatedAt newEdge)))).
Proof.
  intros Hs Ht. unfold handleCreateEdge. rewrite Hs, Ht.
  destruct st as [[nodes links] sel open loading err cm loaded log].
  simpl in *.
  pose proof (findById_Some _ _ _ Hs) as [_ Hsid].
  pose proof (findById_Some _ _ _ Ht) as [_ Htid].
  split; [done|]. split; [|split; [|split; [|done]]].
  - unfold getConnectedNodesInfo. simpl. rewrite foldl_app. simpl.
    f_equal. unfold connectedOf. simpl.
    rewrite Hsid, String.eqb_refl, Htid, Ht. done.
  - intros Hne. unfold getConnectedNodesInfo. simpl. rewrite foldl_app. simpl.
    f_equal. unfold connectedOf. simpl. rewrite Hsid, Htid.
    destruct (String.eqb_spec sourceId targetId) as [?|_]; [done|].
    by rewrite String.eqb_refl, Hs.
  - intros n. unfold getUnconnectedNodes. simpl.
    rewrite !list_elem_of_filter, connectedNodeIds_snoc. simpl.
    rewrite Hsid, String.eqb_refl, Htid.
    intros [[Hne Hni] Hin]. split; [|split; [split|]; try done].
    + intros Heq. apply Hni. rewrite Heq. set_solver.
    + intros Hold. apply Hni. set_solver.
Qed.

Lemma created_edge_moves_target_to_connected_witness :
  findById (fg_nodes (graphData sampleState)) "b" = Some node_b
  ∧ findById (fg_nodes (graphData sampleState)) "c" = Some node_c
  ∧ node_c ∈ getUnconnectedNodes (graphData sampleState) "b"
  ∧ let st' := handleCreateEdge "b" "c"
                 (JS.Resolved (mkEdge "e3" None "b" "c" "connects" [] true
                                      None None))
                 sampleState in
    getConnectedNodesInfo (graphData st') "b"
    = (getConnectedNodesInfo (graphData sampleState) "b"
       ++ [mkConnectedInfo node_c "e3" true])%list
    ∧ ∀ n, n ∈ getUnconnectedNodes (graphData st') "b" →
           n_id n ≠ "c" ∧ n ∈ getUnconnectedNodes (graphData sampleState) "b".
Proof.
  split; [reflexivity|]. split; [reflexivity|].
  split; [apply list_elem_of_In; vm_compute; tauto|].
  destruct (created_edge_moves_target_to_connected sampleState "b" "c"
              (mkEdge "e3" None "b" "c" "connects" [] true None None)
              node_b node_c eq_refl eq_refl) as (_ & Hcon & _ & Hun & _).
  split; [exact Hcon|exact Hun].
Defined.

End ViewAndMenu.

(** ** Unlinking, loading and updating *)

Section ViewEdits.
Import GraphView GraphViewEdit GraphCanvas.

Lemma connectedOf_edgeId nodes s link (edgeId : string) :
  filter (fun entry => ci_edgeId entry ≠ edgeId) (connectedOf nodes s link)
  = if decide (l_id link ≠ edgeId) then connectedOf nodes s link else [].
Proof.
  unfold connectedOf.
  destruct (String.eqb (n_id (l_source link)) s).
  - destruct (findById nodes (n_id (l_target link))); [|by case_decide].
    rewrite filter_cons, filter_nil. simpl. by case_decide.
  - destruct (String.eqb (n_id (l_target link)) s); [|by case_decide].
    destruct (findById nodes (n_id (l_source link))); [|by case_decide].
    rewrite filter_cons, filter_nil. simpl. by case_decide.
Qed.

Lemma handleDeleteEdgeFromContext_graph edgeId u st :
  graphData (handleDeleteEdgeFromContext edgeId (JS.Resolved u) st)
  = mkForceGraphData (fg_nodes (graphData st))
      (filter (fun link => l_id link ≠ edgeId) (fg_links (graphData st))).
Proof.
  unfold handleDeleteEdgeFromContext.
  destruct (selectedItem st) as [[item|item]|]; try done.
  by destruct (String.eqb (e_id item) edgeId).
Qed.

(** X6. Once the backend has deleted the edge [edgeId], unlinked from the
    context menu, the held nodes are as before, the links are the former
    links with another id, the connected list of every node is its former
    list without the entries of that edge, in order, and every node
    offered as unconnected before is still offered. *)
Theorem unlinked_edge_leaves_connected_list (st : State)
    (edgeId sourceNodeId : string) :
  let st' := handleDeleteEdgeFromContext edgeId (JS.Resolved tt) st in
  fg_nodes (graphData st') = fg_nodes (graphData st)
  ∧ fg_links (graphData st')
    = filter (fun link => l_id link ≠ edgeId) (fg_links (graphData st))
  ∧ getConnectedNodesInfo (graphData st') sourceNodeId
    = filter (fun entry => ci_edgeId entry ≠ edgeId)
             (getConnectedNodesInfo (graphData st) sourceNodeId)
  ∧ ∀ n, n ∈ getUnconnectedNodes (graphData st) sourceNodeId →
         n ∈ getUnconnectedNodes (graphData st') sourceNodeId.
Proof.
  cbv zeta. rewrite handleDeleteEdgeFromContext_graph.
  split; [done|]. split; [done|]. split.
  - unfold getConnectedNodesInfo. rewrite !foldl_push. simpl.
    generalize (fg_nodes (graphData st)). intros nodes.
    induction (fg_links (graphData st)) as [|link links IH]; [done|].
    simpl. rewrite filter_app, connectedOf_edgeId, filter_cons.
    case_decide; simpl; by rewrite IH.
  - intros n. unfold getUnconnectedNodes. simpl.
    rewrite !list_elem_of_filter. intros [[Hne Hni] Hin].
    split; [split; [done|]|done].
    intros Hc. apply Hni.
    apply connectedNodeIds_spec in Hc as (link & isSource & Hl & Ho).
    apply connectedNodeIds_spec. exists link, isSource. split; [|done].
    simpl in Hl. by apply list_elem_of_filter in Hl as [_ Hl].
Qed.

Lemma loadGraphData_loaded reply st :
  hasLoadedInitialData st = true → loadGraphData reply st = st.
Proof. intros H. unfold loadGraphData. by rewrite H. Qed.

Lemma loadGraphData_resolved data st :
  hasLoadedInitialData st = false →
  loadGraphData (JS.Resolved data) st
  = setIsLoading false
      (setGraphData (fst (convertToForceGraphData data))
         (consoleLog (snd (convertToForceGraphData data))
            (setError None (setIsLoading true (setHasLoaded true st))))).
Proof.
  intros H. unfold loadGraphData. rewrite H.
  by destruct (convertToForceGraphData data).
Qed.

Lemma loadGraphData_rejected message st :
  hasLoadedInitialData st = false →
  loadGraphData (JS.Rejected message) st
  = setIsLoading false
      (setHasLoaded false
         (setError (Some message)
            (consoleLog ["Failed to load graph: " ++ message]
               (setError None (setIsLoading true (setHasLoaded true st)))))).
Proof. intros H. unfold loadGraphData. by rewrite H. Qed.

(** X7. [loadGraphData] does nothing once the initial load has been
    started or has succeeded, so a second run of the mount effect changes
    nothing; a load that ran leaves [isLoading] false; after a success the
    converted snapshot is held without an error and any further load is
    ignored; after a failure the graph is as before, the error message is
    shown, and a retry that succeeds installs its snapshot. *)
Theorem loadGraphData_runs_once (st : State) (reply : JS.ApiReply GraphData) :
  (hasLoadedInitialData st = true → loadGraphData reply st = st)
  ∧ (hasLoadedInitialData st = false →
     isLoading (loadGraphData reply st) = false
     ∧ match reply with
       | JS.Resolved data =>
           graphData (loadGraphData reply st)
           = fst (convertToForceGraphData data)
           ∧ error (loadGraphData reply st) = None
           ∧ ∀ reply', loadGraphData reply' (loadGraphData reply st)
                       = loadGraphData reply st
       | JS.Rejected message =>
           graphData (loadGraphData reply st) = graphData st
           ∧ selectedItem (loadGraphData reply st) = selectedItem st
           ∧ error (loadGraphData reply st) = Some message
           ∧ ∀ data,
               graphData (loadGraphData (JS.Resolved data)
                                        (loadGraphData reply st))
               = fst (convertToForceGraphData data)
               ∧ error (loadGraphData (JS.Resolved data)
                                      (loadGraphData reply st)) = None
       end).
Proof.
  split; [apply loadGraphData_loaded|].
  intros H. destruct reply as [data|message].
  - rewrite (loadGraphData_resolved data st H).
    generalize (convertToForceGraphData data). intros [g' w].
    split; [done|]. split; [done|]. split; [done|].
    intros reply'. by apply loadGraphData_loaded.
  - rewrite (loadGraphData_rejected message st H).
    split; [done|]. split; [done|]. split; [done|]. split; [done|].
    intros data. rewrite loadGraphData_resolved by done.
    generalize (convertToForceGraphData data). intros [g' w]. done.
Qed.

(** X8. An update of the selected item never adds, removes or rewires
    anything: the held nodes keep their number and the links their number,
    ids and endpoint nodes; an edge update leaves the nodes as they are, a
    node update leaves the links as they are and touches only nodes with
    the id of the reply; without a selection, and when the backend refuses,
    graph and selection are unchanged. *)
Theorem handleUpdateItem_frame (st : State) (onNode : JS.ApiReply GraphNode)
    (onEdge : JS.ApiReply GraphEdge) :
  let g := graphData st in
  let g' := graphData (handleUpdateItem onNode onEdge st) in
  length (fg_nodes g') = length (fg_nodes g)
  ∧ map l_id (fg_links g') = map l_id (fg_links g)
  ∧ map l_source (fg_links g') = map l_source (fg_links g)
  ∧ map l_target (fg_links g') = map l_target (fg_links g)
  ∧ (selectedItem st = None → handleUpdateItem onNode onEdge st = st)
  ∧ (∀ item, selectedItem st = Some (SelEdge item) →
             fg_nodes g' = fg_nodes g)
  ∧ (∀ item, selectedItem st = Some (SelNode item) →
             fg_links g' = fg_links g
             ∧ ∀ updatedNode n,
                 onNode = JS.Resolved updatedNode → n ∈ fg_nodes g →
                 n_id n ≠ JS.or_string (n__id updatedNode) (n_id updatedNode) →
                 n ∈ fg_nodes g')
  ∧ (∀ m1 m2, onNode = JS.Rejected m1 → onEdge = JS.Rejected m2 →
              g' = g
              ∧ selectedItem (handleUpdateItem onNode onEdge st)
                = selectedItem st).
Proof.
  simpl. unfold handleUpdateItem.
  destruct (selectedItem st) as [[item|item]|] eqn:Hsel.
  - destruct onNode as [updatedNode|m]; simpl.
    + rewrite length_map. repeat split; try done.
      intros u n [= <-] Hin Hne.
      apply list_elem_of_In, in_map_iff. exists n.
      split; [|by apply list_elem_of_In].
      by destruct (String.eqb_spec (n_id n)
                     (JS.or_string (n__id updatedNode) (n_id updatedNode))).
    + repeat split; try done.
  - destruct onEdge as [updatedEdge|m]; simpl.
    + rewrite length_map || idtac.
      assert (Hm : ∀ (C : Type) (proj : ForceGraphEdge → C),
                 (∀ link, proj (relabel updatedEdge link) = proj link) →
                 map proj (map (fun link =>
                                  if String.eqb (l_id link) (e_id updatedEdge)
                                  then relabel updatedEdge link else link)
                               (fg_links (graphData st)))
                 = map proj (fg_links (graphData st))).
      { intros C proj Hp. rewrite map_map. apply map_ext. intros link.
        destruct (String.eqb (l_id link) (e_id updatedEdge)); [apply Hp|done]. }
      rewrite !Hm by done. repeat split; try done.
    + repeat split; try done.
  - repeat split; try done.
Qed.

(** X9. When the node returned by the backend carries its normalised id
    ([id] equal to [_id || id]), a node update leaves the ids of the held
    nodes as they are, position by position, and so keeps the held graph
    closed. *)
Theorem handleUpdateItem_keeps_ids (st : State) (item updatedNode : GraphNode)
    (onEdge : JS.ApiReply GraphEdge) :
  selectedItem st = Some (SelNode item) →
  n_id updatedNode = JS.or_string (n__id updatedNode) (n_id updatedNode) →
  let g := graphData st in
  let g' := graphData (handleUpdateItem (JS.Resolved updatedNode) onEdge st) in
  map n_id (fg_nodes g') = map n_id (fg_nodes g)
  ∧ (closed g → closed g').
Proof.
  intros Hsel Hid. simpl. unfold handleUpdateItem. rewrite Hsel. simpl.
  assert (Hids : map n_id
            (map (fun node =>
                    if String.eqb (n_id node)
                         (JS.or_string (n__id updatedNode) (n_id updatedNode))
                    then spreadNode node updatedNode else node)
                 (fg_nodes (graphData st)))
          = map n_id (fg_nodes (graphData st))).
  { rewrite map_map. apply map_ext. intros node. rewrite <- Hid.
    by destruct (String.eqb_spec (n_id node) (n_id updatedNode)). }
  split; [exact Hids|].
  intros Hc l Hl. unfold closed in *. simpl in *. rewrite Hids. by apply Hc.
Qed.

Lemma handleUpdateItem_keeps_ids_witness :
  let updated := sampleNode "a" 11 21 in
  map n_id (fg_nodes (graphData
      (handleUpdateItem (JS.Resolved updated) (JS.Rejected EmptyString)
                        sampleState)))
  = ["a"; "b"; "c"].
Proof.
  intros updated.
  exact (proj1 (handleUpdateItem_keeps_ids sampleState node_a updated
                  (JS.Rejected EmptyString) eq_refl eq_refl)).
Defined.

(** A reply whose [id] differs from its [_id] renames the held node, while
    the links keep the node they were built with: the graph is no longer
    closed. *)
Example update_with_distinct_ids_renames_node :
  let updated :=
    mkNode "z" (Some "a") "a" "default" [] (JS.num 10) (JS.num 20)
           None None None None None None None in
  let g' := graphData (handleUpdateItem (JS.Resolved updated)
                         (JS.Rejected EmptyString) sampleState) in
  map n_id (fg_nodes g') = ["z"; "b"; "c"]
  ∧ map (fun l => n_id (l_source l)) (fg_links g') = ["a"; "c"]
  ∧ ¬ closed g'.
Proof.
  intros updated g'. split; [reflexivity|]. split; [reflexivity|].
  intros Hc. destruct (Hc (sampleLink "e1" node_a node_b)) as [Hs _].
  - apply list_elem_of_In. simpl. tauto.
  - apply list_elem_of_In in Hs. simpl in Hs.
    destruct Hs as [H|[H|[H|[]]]]; discriminate H.
Qed.

End ViewEdits.

(** ** Debounce in general *)

Section DebounceScripts.
Import ApiClient.
Context {A : Type}.
Implicit Types (d : Debounced A) (script : list (nat * A)).



End DebounceScripts.



(** ** A drag gesture from the canvas to the backend *)

Section DragPipeline.
Import GraphView GraphCanvas ApiClient.

(** X11. The events of a drag gesture on a node object of the store reach
    the host with that object.  On a pointer-move the view pins the held
    node of that id at the pointer and leaves the position the node had;
    on pointer-up the node stands pinned where it is, and the position
    update that goes out 500 ms after, when no other follows, carries the
    id of the node and that position. *)
Theorem drag_reaches_view_and_backend (event : DragEvent) (d : nat)
    (c : Canvas) (n : ForceGraphNode) :
  store c !! d = Some n →
  (∃ moved, fst (drag event d c) = [OnNodeDrag moved]
     ∧ store (snd (drag event d c)) !! d = Some moved
     ∧ ∀ st m, m ∈ fg_nodes (graphData st) → n_id m = n_id n →
         ∃ m', m' ∈ fg_nodes (graphData (handleNodeDrag moved st))
               ∧ identity m' = identity m
               ∧ n_fx m' = Some (ev_x event) ∧ n_fy m' = Some (ev_y event)
               ∧ n_x m' = n_x n ∧ n_y m' = n_y n)
  ∧ (∃ dropped, fst (dragEnd event d c) = [OnNodeDragEnd dropped]
       ∧ store (snd (dragEnd event d c)) !! d = Some dropped
       ∧ standing (n_x n) (n_y n) dropped
       ∧ ∀ (deb : Debounced PositionUpdate) (t T : nat),
           queue (timers deb) = [] → (now (timers deb) ≤ t)%nat →
           calls (elapse T (debouncedUpdateNodePosition
                              (handleNodeDragEnd dropped) (elapse t deb)))
           = (calls deb
              ++ if decide (t + 500 ≤ T)%nat
                 then [((t + 500)%nat, (n_id n, n_x n, n_y n))]
                 else [])%list).
Proof.
  intros Hd. split.
  - exists (pin (Some (ev_x event)) (Some (ev_y event)) n).
    unfold drag, emit. cbn [fst snd store setStore].
    rewrite (assign_lookup_eq d _ (store c) n Hd).
    split; [done|]. split; [done|].
    intros st m Hin Hid.
    exists (withPosition (pin (Some (ev_x event)) (Some (ev_y event)) n) m).
    split; [|done].
    unfold handleNodeDrag. simpl.
    apply list_elem_of_In, in_map_iff. exists m.
    split; [|by apply list_elem_of_In].
    rewrite Hid, String.eqb_refl. done.
  - exists (pin (Some (n_x n)) (Some (n_y n)) n).
    unfold dragEnd, emit. cbn [fst snd store setStore setSimulation].
    rewrite (assign_lookup_eq d _ (store c) n Hd).
    split; [done|]. split; [done|]. split; [done|].
    intros deb t T Hq Hnow.
    destruct (debounced_idle DEBOUNCE_DELAY t
                (handleNodeDragEnd (pin (Some (n_x n)) (Some (n_y n)) n))
                deb Hq Hnow) as [Harmed Hcalls].
    pose proof (elapse_armed DEBOUNCE_DELAY t _ _ T Harmed) as Hsent.
    rewrite Hcalls in Hsent. exact Hsent.
Qed.

Lemma drag_reaches_view_and_backend_witness :
  store sampleScene !! 0%nat = Some (initializeNode 0 node_a)
  ∧ ∃ dropped,
      fst (dragEnd (mkDragEvent (JS.num 70) (JS.num 80) 0) 0 sampleScene)
      = [OnNodeDragEnd dropped]
      ∧ calls (elapse 1000 (debouncedUpdateNodePosition
                              (handleNodeDragEnd dropped) (elapse 200 fresh)))
        = [(700%nat, ("a", n_x node_a, n_y node_a))].
Proof.
  split; [reflexivity|].
  destruct (drag_reaches_view_and_backend
              (mkDragEvent (JS.num 70) (JS.num 80) 0) 0 sampleScene
              (initializeNode 0 node_a) eq_refl)
    as [_ (dropped & Hemit & _ & _ & Hsent)].
  exists dropped. split; [exact Hemit|].
  rewrite (Hsent fresh 200%nat 1000%nat eq_refl); [reflexivity|].
  simpl. lia.
Defined.

End DragPipeline.

(** ** Styling *)

Section StylingFacts.
Import Styling.

Lemma filter_none {B : Type} (P : B → Prop) `{!∀ x, Decision (P x)}
    (l : list B) :
  (∀ x, ¬ P x) → filter P l = [].
Proof.
  intros HP. induction l as [|x l IH]; [done|].
  rewrite filter_cons. case_decide; [by destruct (HP x)|exact IH].
Qed.

Lemma at_most_one_with_id (nodes : list ForceGraphNode) (i : string) :
  NoDup (map n_id nodes) →
  (length (filter (fun d => String.eqb i (n_id d) = true) nodes) ≤ 1)%nat.
Proof.
  induction nodes as [|n nodes IH]; simpl; intros Hnd; [lia|].
  apply NoDup_cons in Hnd as [Hn Hnd]. rewrite filter_cons.
  case_decide as Heq; [|by apply IH].
  apply String.eqb_eq in Heq. subst i. simpl.
  assert (Hnone : filter (fun d => String.eqb (n_id n) (n_id d) = true) nodes
                  = []).
  { clear IH Hnd. induction nodes as [|m nodes IH]; [done|].
    rewrite filter_cons. case_decide as Hm.
    - apply String.eqb_eq in Hm. destruct Hn. rewrite Hm. simpl. by left.
    - apply IH. intros Hin. apply Hn. simpl. by right. }
  rewrite Hnone. simpl. lia.
Qed.

(** X12. The two callbacks that style a circle agree, and so do those that
    style a line: a node is outlined with width 3 exactly when its stroke
    is not the default one, a link exactly when its stroke is white.  The
    white stroke marks the selection and wins over a search highlight; a
    node and a link are never marked together; among nodes with unique ids
    at most one is marked; a link carries an arrowhead exactly when it is
    directed. *)
Theorem styling_marks_the_selection (selectedItem : option SelectedItem)
    (searchHighlights : list string) :
  (∀ d, nodeStrokeWidth selectedItem searchHighlights d = 3%nat
        ↔ nodeStroke selectedItem searchHighlights d ≠ "#333")
  ∧ (∀ d, nodeStroke selectedItem searchHighlights d = "#ffffff"
          ↔ ∃ item, selectedItem = Some (SelNode item)
                    ∧ n_id item = n_id d)
  ∧ (∀ d, nodeStroke selectedItem searchHighlights d = "#f59e0b"
          ↔ n_id d ∈ searchHighlights
            ∧ nodeStroke selectedItem searchHighlights d ≠ "#ffffff")
  ∧ (∀ l, linkStrokeWidth selectedItem l = 3%nat
          ↔ linkStroke selectedItem l = "#ffffff")
  ∧ (∀ l, linkStroke selectedItem l = "#ffffff"
          ↔ ∃ item, selectedItem = Some (SelEdge item)
                    ∧ e_id item = l_id l)
  ∧ (∀ d l, ¬ (nodeStroke selectedItem searchHighlights d = "#ffffff"
               ∧ linkStroke selectedItem l = "#ffffff"))
  ∧ (∀ nodes, NoDup (map n_id nodes) →
       (length (filter (fun d => nodeStroke selectedItem searchHighlights d
                                 = "#ffffff") nodes) ≤ 1)%nat)
  ∧ (∀ l, is_Some (linkMarkerEnd selectedItem l) ↔ l_directed l = true).
Proof.
  assert (Hnode : ∀ d, nodeStroke selectedItem searchHighlights d = "#ffffff"
                       ↔ isSelectedNode selectedItem d = true).
  { intros d. unfold nodeStroke.
    destruct (isSelectedNode selectedItem d); [done|].
    by destruct (isHighlighted searchHighlights d). }
  assert (Hlink : ∀ l, linkStroke selectedItem l = "#ffffff"
                       ↔ isSelectedLink selectedItem l = true).
  { intros l. unfold linkStroke. by destruct (isSelectedLink selectedItem l). }
  split; [|split; [|split; [|split; [|split; [|split; [|split]]]]]].
  - intros d. unfold nodeStrokeWidth, nodeStroke.
    destruct (isSelectedNode selectedItem d); [done|].
    by destruct (isHighlighted searchHighlights d).
  - intros d. rewrite Hnode. unfold isSelectedNode.
    destruct selectedItem as [[item|item]|].
    + rewrite String.eqb_eq. split; [by exists item|].
      by intros (item' & [= <-] & Hid).
    + split; [done|]. by intros (item' & [=] & _).
    + split; [done|]. by intros (item' & [=] & _).
  - intros d. unfold nodeStroke, isHighlighted.
    destruct (isSelectedNode selectedItem d).
    + split; [done|]. by intros [_ Hne].
    + case_bool_decide; split; try done. by intros [Hin _].
  - intros l. unfold linkStrokeWidth, linkStroke.
    by destruct (isSelectedLink selectedItem l).
  - intros l. rewrite Hlink. unfold isSelectedLink.
    destruct selectedItem as [[item|item]|].
    + split; [done|]. by intros (item' & [=] & _).
    + rewrite String.eqb_eq. split; [by exists item|].
      by intros (item' & [= <-] & Hid).
    + split; [done|]. by intros (item' & [=] & _).
  - intros d l. rewrite Hnode, Hlink. unfold isSelectedNode, isSelectedLink.
    destruct selectedItem as [[item|item]|]; by intros [? ?].
  - intros nodes Hnd.
    destruct selectedItem as [[item|item]|].
    + rewrite <- (at_most_one_with_id nodes (n_id item) Hnd).
      apply Nat.eq_le_incl. f_equal. apply list_filter_iff.
      intros d. by rewrite Hnode.
    + rewrite filter_none; [simpl; lia|]. intros d. by rewrite Hnode.
    + rewrite filter_none; [simpl; lia|]. intros d. by rewrite Hnode.
  - intros l. unfold linkMarkerEnd. destruct (l_directed l).
    + split; [done|]. intros _.
      by destruct (isSelectedLink selectedItem l).
    + split; [by intros [? ?]|done].
Qed.

End StylingFacts.

(** ** Where the camera functions put the drawing *)

Section CameraPlacement.
Import GraphCanvas.








(** X13. On a mounted canvas [centerOnNode] draws the node with the given
    id, at the position it has in the store when the call is made, in the
    centre of the viewport, at scale 1.5; an id that none of the captured
    nodes carries leaves the view as it is; store and simulation are never
    touched. *)
Theorem centerOnNode_centres (nodes : list nat) (width height : JS.number)
    (nodeId : string) (c : Canvas) :
  mounted c = true →
  let c' := centerOnNode nodes width height nodeId c in
  store c' = store c ∧ simulation c' = simulation c
  ∧ match find_node (store c) nodes nodeId with
    | Some (_, target) =>
        k (currentTransform c') = JS.num (15 # 10)
        ∧ applyTransform (currentTransform c') (n_x target, n_y target)
          = ((width / JS.num 2)%Qc, (height / JS.num 2)%Qc)
    | None => c' = c
    end.
Proof.
  intros Hm. unfold centerOnNode. rewrite Hm. simpl.
  destruct (find_node (store c) nodes nodeId) as [[l target]|]; [|done].
  simpl. split; [done|]. split; [done|].
  split; [apply Qcmult_1_l|].
  unfold applyTransform, JS.or_zero. simpl.
  f_equal.
  - case_bool_decide as Hx; [rewrite Hx|]; ring.
  - case_bool_decide as Hy; [rewrite Hy|]; ring.
Qed.

Lemma centerOnNode_centres_witness :
  let c' := centerOnNode [0; 1]%nat (JS.num 800) (JS.num 600) "b"
                         sampleScene in
  k (currentTransform c') = JS.num (15 # 10)
  ∧ applyTransform (currentTransform c') (n_x node_b, n_y node_b)
    = ((JS.num 800 / JS.num 2)%Qc, (JS.num 600 / JS.num 2)%Qc).
Proof.
  exact (proj2 (proj2 (centerOnNode_centres [0; 1]%nat (JS.num 800)
                         (JS.num 600) "b" sampleScene eq_refl))).
Defined.



End CameraPlacement.

(** ** The data effect and the simulation over time *)

Section CanvasRuns.
Import GraphCanvas.

Lemma updateData_store data c :
  store (updateData data c)
  = if mounted c
    then match data with
         | [] => store c
         | _ => initializeNodes data
                  (preserveExisting (sim_nodes (simulation c)) data (store c))
         end
    else store c.
Proof.
  unfold updateData. destruct (mounted c); [|done]. cbn [negb].
  destruct (dimensions c) as [w hh]. by destruct data.
Qed.

Lemma updateData_simulation data c :
  simulation (updateData data c)
  = if mounted c
    then match data with
         | [] => simulation c
         | _ => reheat (registerNodes data (simulation c))
         end
    else simulation c.
Proof.
  unfold updateData. destruct (mounted c); [|done]. cbn [negb].
  destruct (dimensions c) as [w hh]. by destruct data.
Qed.

Lemma updateData_camera data c :
  currentTransform (updateData data c) = currentTransform c
  ∧ dimensions (updateData data c) = dimensions c
  ∧ mounted (updateData data c) = mounted c.
Proof.
  unfold updateData. destruct (mounted c) eqn:Hm; [|done]. cbn [negb].
  destruct (dimensions c) as [w hh] eqn:Hd. by destruct data.
Qed.

Lemma fitToScreen_simulation w h bounds c :
  simulation (fitToScreen w h bounds c) = simulation c
  ∧ store (fitToScreen w h bounds c) = store c.
Proof.
  unfold fitToScreen. destruct (mounted c); [|done]. cbn [negb].
  destruct bounds as [b|]; [|done].
  destruct (Qclt_le_dec 0 (bbox_width b)); [|done].
  by destruct (Qclt_le_dec 0 (bbox_height b)).
Qed.

Lemma invokeFitToScreen_simulation bounds c :
  simulation (invokeFitToScreen bounds c) = simulation c
  ∧ store (invokeFitToScreen bounds c) = store c.
Proof.
  unfold invokeFitToScreen. destruct (onFitToScreen c) as [|w h|w h].
  - done.
  - unfold emptyFitFunction. by destruct (mounted c).
  - apply fitToScreen_simulation.
Qed.

Lemma invokeCenterOnNode_simulation nodeId c :
  simulation (invokeCenterOnNode nodeId c) = simulation c
  ∧ store (invokeCenterOnNode nodeId c) = store c.
Proof.
  unfold invokeCenterOnNode. destruct (onCenterOnNode c) as [| |nodes w h].
  - done.
  - done.
  - unfold centerOnNode. destruct (mounted c); [|done]. cbn [negb].
    by destruct (find_node (store c) nodes nodeId) as [[l n]|].
Qed.

Lemma alpha_step_warm (alpha target : JS.number) :
  (ALPHA_TARGET <= alpha)%Qc → (ALPHA_TARGET <= target)%Qc →
  (ALPHA_TARGET <= alpha + (target - alpha) * ALPHA_DECAY)%Qc.
Proof.
  unfold ALPHA_TARGET, ALPHA_DECAY, JS.num, Qcle. simpl.
  rewrite !Qred_correct. intros Ha Ht. lra.
Qed.

Lemma reheat_warm sim : warm sim → reheat sim = sim.
Proof.
  intros [Ha _]. unfold reheat.
  destruct (Qclt_le_dec (sim_alpha sim) ALPHA_TARGET) as [Hlt|_]; [|done].
  by apply Qcle_not_lt in Ha.
Qed.

Lemma react_warm c e : warm (simulation c) → warm (simulation (react c e)).
Proof.
  intros Hw. destruct e as [w h|forces|created data|event d|event d|event d
                           |bounds|nodeId]; simpl.
  - split; done.
  - destruct Hw as [Ha Ht]. split; [by apply alpha_step_warm|done].
  - rewrite updateData_simulation. simpl.
    destruct (mounted c); [|done]. destruct data as [|l data]; [done|].
    by rewrite reheat_warm.
  - destruct Hw as [Ha Ht]. destruct (ev_active event); [|done].
    split; [done|]. simpl. done.
  - done.
  - destruct Hw as [Ha Ht]. destruct (ev_active event); [|done].
    split; [done|]. simpl. apply Qcle_refl.
  - by rewrite (proj1 (invokeFitToScreen_simulation bounds c)).
  - by rewrite (proj1 (invokeCenterOnNode_simulation nodeId c)).
Qed.

(** X15. The simulation of a canvas is warm at every moment: from the
    unmounted canvas on, through any events, neither alpha nor its target
    falls below the configured alpha target.  The data effect therefore
    never takes its reheat branch: registering a snapshot leaves alpha as
    it is. *)
Theorem reheat_never_fires (events : list CanvasEvent) :
  let c := foldl react emptyCanvas events in
  warm (simulation c)
  ∧ ∀ created data,
      simulation (react c (NewData created data))
      = (if mounted c
         then match data with
              | [] => simulation c
              | _ => registerNodes data (simulation c)
              end
         else simulation c)
      ∧ sim_alpha (simulation (react c (NewData created data)))
        = sim_alpha (simulation c).
Proof.
  simpl.
  assert (Hw : warm (simulation (foldl react emptyCanvas events))).
  { assert (H0 : warm (simulation emptyCanvas)) by (split; done).
    revert H0. generalize emptyCanvas.
    induction events as [|e events IH]; intros c H0; [done|].
    simpl. apply IH. by apply react_warm. }
  split; [exact Hw|].
  intros created data. rewrite updateData_simulation. simpl.
  destruct (mounted (foldl react emptyCanvas events)); [|done].
  destruct data as [|l data]; [done|].
  by rewrite reheat_warm.
Qed.

(** A simulation below the alpha target would be reheated; no canvas gets
    there. *)
Example cold_simulation_is_reheated :
  let cold := mkSimulation [] (JS.num (1 # 100)) ALPHA_TARGET false in
  ¬ warm cold ∧ reheat cold = mkSimulation [] REHEAT_STRENGTH ALPHA_TARGET true.
Proof. split; [by intros [H _]|reflexivity]. Qed.

Lemma preserveExisting_notin existingNodes newNodes (h : list ForceGraphNode)
    (l : nat) :
  l ∉ newNodes → preserveExisting existingNodes newNodes h !! l = h !! l.
Proof.
  revert h. induction newNodes as [|d newNodes IH]; intros h Hl; [done|].
  simpl. apply not_elem_of_cons in Hl as [Hne Hl].
  fold (preserveExisting existingNodes newNodes (preserveNode existingNodes h d)).
  rewrite IH by done. unfold preserveNode.
  destruct (h !! d) as [n|]; [|done].
  destruct (find_node h existingNodes (n_id n)) as [[e en]|]; [|done].
  by rewrite list_lookup_insert_ne.
Qed.

Lemma forEachNode_notin f nodes i (h : list ForceGraphNode) (l : nat) :
  l ∉ nodes → forEachNode f i nodes h !! l = h !! l.
Proof.
  revert i h. induction nodes as [|d nodes IH]; intros i h Hl; [done|].
  simpl. apply not_elem_of_cons in Hl as [Hne Hl].
  rewrite IH by done. by apply assign_lookup_ne.
Qed.

Lemma preserveExisting_identity existingNodes newNodes
    (h : list ForceGraphNode) (l : nat) :
  identity <$> preserveExisting existingNodes newNodes h !! l
  = identity <$> h !! l.
Proof.
  destruct (preserveExisting_fold h existingNodes newNodes h
              (loop_inv_start h existingNodes)) as [(Hid & _ & _) _].
  specialize (Hid l).
  destruct (preserveExisting existingNodes newNodes h !! l) as [n'|],
           (h !! l) as [n|]; simpl in *; congruence.
Qed.

Lemma forEachNode_identity f nodes i (h : list ForceGraphNode) (l : nat) :
  (∀ i n, identity (f i n) = identity n) →
  identity <$> forEachNode f i nodes h !! l = identity <$> h !! l.
Proof.
  intros Hf. destruct (h !! l) as [n|] eqn:Hl.
  - destruct (forEachNode_stable f (fun m => identity m = identity n)
                nodes i h l n) as (n' & -> & Hn'); [|done|done|].
    + intros j m Hm. by rewrite Hf.
    + simpl. by rewrite Hn'.
  - by rewrite forEachNode_None.
Qed.

(** X16. Whatever snapshot the host hands over, the data effect leaves the
    store with the same objects: none is added or removed, none changes
    its id, label, type, properties or dates, and an object that is not
    part of the snapshot is not assigned to at all; the view transform and
    the dimensions are kept, and so is the alpha target. *)
Theorem updateData_frame (data : list nat) (c : Canvas) :
  let c' := updateData data c in
  length (store c') = length (store c)
  ∧ (∀ l, identity <$> store c' !! l = identity <$> store c !! l)
  ∧ (∀ l, l ∉ data → store c' !! l = store c !! l)
  ∧ currentTransform c' = currentTransform c
  ∧ dimensions c' = dimensions c
  ∧ sim_alphaTarget (simulation c') = sim_alphaTarget (simulation c).
Proof.
  cbv zeta. rewrite updateData_store, updateData_simulation.
  destruct (updateData_camera data c) as (Ht & Hd & _).
  destruct (mounted c); [|done].
  destruct data as [|l0 data]; [done|].
  set (newNodes := l0 :: data).
  split; [|split; [|split; [|split; [done|split; [done|]]]]].
  - unfold initializeNodes.
    by rewrite forEachNode_length, preserveExisting_length.
  - intros l. unfold initializeNodes.
    rewrite forEachNode_identity by done.
    apply preserveExisting_identity.
  - intros l Hl. unfold initializeNodes.
    rewrite forEachNode_notin by done. by apply preserveExisting_notin.
  - unfold reheat, registerNodes. simpl.
    by destruct (Qclt_le_dec (sim_alpha (simulation c)) ALPHA_TARGET).
Qed.

(** X17. A pointer-down on a node that the simulation holds pins the node
    where it is: the node stands there at once and after the next step of
    the simulation, whatever the forces; no other object of the store is
    assigned to; alpha is kept and its target is raised to 0.3 unless
    another gesture is in progress. *)
Theorem dragStart_holds_node (forces : Forces) (c : Canvas) (d : nat)
    (n : ForceGraphNode) (event : DragEvent) :
  find_node (store c) (sim_nodes (simulation c)) (n_id n) = Some (d, n) →
  let started := dragStart event d c in
  pinnedAt (n_id n) (n_x n) (n_y n) started
  ∧ pinnedAt (n_id n) (n_x n) (n_y n) (tick forces started)
  ∧ (∀ l, l ≠ d → store started !! l = store c !! l)
  ∧ sim_alpha (simulation started) = sim_alpha (simulation c)
  ∧ sim_alphaTarget (simulation started)
    = match ev_active event with
      | O => DRAG_ALPHA_TARGET
      | S _ => sim_alphaTarget (simulation c)
      end.
Proof.
  intros Hf. cbv zeta.
  set (g := fun n0 : ForceGraphNode => pin (Some (n_x n0)) (Some (n_y n0)) n0).
  assert (Hstarted : store (dragStart event d c) = assign d g (store c)
                     ∧ sim_nodes (simulation (dragStart event d c))
                       = sim_nodes (simulation c)).
  { unfold dragStart. simpl. by destruct (ev_active event). }
  destruct Hstarted as [Hstore Hnodes].
  pose proof (find_node_assign (store c) _ (n_id n) d n g Hf eq_refl) as Hg.
  assert (Hfound : find_node (store (dragStart event d c))
                     (sim_nodes (simulation (dragStart event d c))) (n_id n)
                   = Some (d, g n)) by by rewrite Hstore, Hnodes.
  split; [|split; [|split; [|split]]].
  - exists d, (g n). by rewrite Hfound.
  - by apply (tick_moves_to_pin forces (n_id n) (n_x n) (n_y n) d (g n)).
  - intros l Hne. rewrite Hstore. by apply assign_lookup_ne.
  - unfold dragStart. simpl. by destruct (ev_active event).
  - unfold dragStart. simpl. by destruct (ev_active event).
Qed.

Lemma dragStart_holds_node_witness :
  pinnedAt "a" (n_x node_a) (n_y node_a)
    (tick noForces (dragStart (mkDragEvent (JS.num 70) (JS.num 80) 0) 0
                              sampleScene))
  ∧ sim_alphaTarget
      (simulation (dragStart (mkDragEvent (JS.num 70) (JS.num 80) 0) 0
                             sampleScene))
    = DRAG_ALPHA_TARGET.
Proof.
  destruct (dragStart_holds_node noForces sampleScene 0
              (initializeNode 0 node_a)
              (mkDragEvent (JS.num 70) (JS.num 80) 0) eq_refl)
    as (_ & Hheld & _ & _ & Htarget).
  split; [exact Hheld|exact Htarget].
Defined.

Lemma preserveExisting_nil newNodes (h : list ForceGraphNode) :
  preserveExisting [] newNodes h = h.
Proof.
  revert h. induction newNodes as [|d newNodes IH]; intros h; [done|].
  simpl. fold (preserveExisting [] newNodes (preserveNode [] h d)).
  rewrite IH. unfold preserveNode. by destruct (h !! d).
Qed.

(** X18. A change of the dimensions replaces the simulation by a new one,
    with alpha back at 1, to which the data effect hands the nodes of the
    current snapshot.  A node that had a velocity keeps its identity, its
    velocity and its pin, and its position unless it is pinned, in which
    case it is put on its pin. *)
Theorem resize_keeps_layout (width height : JS.number) (data : list nat)
    (c : Canvas) (l : nat) (n : ForceGraphNode) :
  l ∈ data → store c !! l = Some n → has_velocity n →
  let c' := updateData data (initialise width height c) in
  sim_alpha (simulation c') = 1%Qc
  ∧ sim_alphaTarget (simulation c') = ALPHA_TARGET
  ∧ sim_nodes (simulation c') = data
  ∧ ∃ n', store c' !! l = Some n'
          ∧ identity n' = identity n
          ∧ n_vx n' = n_vx n ∧ n_vy n' = n_vy n
          ∧ n_fx n' = n_fx n ∧ n_fy n' = n_fy n
          ∧ n_x n' = default (n_x n) (n_fx n)
          ∧ n_y n' = default (n_y n) (n_fy n).
Proof.
  intros Hin Hl Hv. cbv zeta.
  rewrite updateData_store, updateData_simulation.
  cbn [initialise mounted store simulation].
  destruct data as [|l0 data]; [by apply elem_of_nil in Hin|].
  set (newNodes := l0 :: data) in *.
  assert (Hsim : reheat (registerNodes newNodes forceSimulation)
                 = registerNodes newNodes forceSimulation).
  { apply reheat_warm. split; done. }
  rewrite Hsim. split; [done|]. split; [done|]. split; [done|].
  change (sim_nodes forceSimulation) with (@nil nat).
  rewrite preserveExisting_nil. unfold initializeNodes.
  set (Q := fun m : ForceGraphNode =>
              identity m = identity n
              ∧ n_vx m = n_vx n ∧ n_vy m = n_vy n
              ∧ n_fx m = n_fx n ∧ n_fy m = n_fy n
              ∧ n_x m = default (n_x n) (n_fx n)
              ∧ n_y m = default (n_y n) (n_fy n)).
  set (P := fun m : ForceGraphNode => m = n ∨ Q m).
  assert (HPQ : ∀ i m, P m → Q (initializeNode i m)).
  { intros i m [->|(Hid & Hvx & Hvy & Hfx & Hfy & Hx & Hy)].
    - destruct Hv as [[vx Hvx] [vy Hvy]].
      unfold Q, initializeNode. simpl. rewrite Hvx, Hvy. done.
    - destruct Hv as [[vx Hvx'] [vy Hvy']].
      unfold Q, initializeNode. simpl.
      rewrite Hvx, Hvy, Hvx', Hvy', Hfx, Hfy, Hx, Hy. simpl.
      repeat split; try done.
      + by destruct (n_fx n).
      + by destruct (n_fy n). }
  destruct (forEachNode_reach initializeNode P Q newNodes 0 (store c) l n)
    as (n' & Hn' & HQ); try done.
  - intros i m Hm. right. by apply HPQ.
  - intros i m Hm. apply HPQ. by right.
  - by left.
  - by exists n'.
Qed.

Lemma resize_keeps_layout_witness :
  let c' := updateData [0; 1]%nat
              (initialise (JS.num 1024) (JS.num 768) sampleScene) in
  sim_alpha (simulation c') = 1%Qc
  ∧ sim_alphaTarget (simulation c') = ALPHA_TARGET
  ∧ sim_nodes (simulation c') = [0; 1]%nat
  ∧ ∃ n', store c' !! 1%nat = Some n'
          ∧ identity n' = identity (initializeNode 1 node_b)
          ∧ n_vx n' = n_vx (initializeNode 1 node_b)
          ∧ n_vy n' = n_vy (initializeNode 1 node_b)
          ∧ n_fx n' = n_fx (initializeNode 1 node_b)
          ∧ n_fy n' = n_fy (initializeNode 1 node_b)
          ∧ n_x n' = default (n_x (initializeNode 1 node_b))
                             (n_fx (initializeNode 1 node_b))
          ∧ n_y n' = default (n_y (initializeNode 1 node_b))
                             (n_fy (initializeNode 1 node_b)).
Proof.
  apply (resize_keeps_layout (JS.num 1024) (JS.num 768) [0; 1]%nat
           sampleScene 1 (initializeNode 1 node_b)).
  - apply list_elem_of_In. simpl. tauto.
  - reflexivity.
  - split; by eexists.
Defined.

End CanvasRuns.

(** ** Search *)

Section Search.
Import GraphViewSearch.
Variables trim toLowerCase : string → string.
Variable localeCompare : string → string → Z.
Variable sort : (GraphNode → GraphNode → Z) → list GraphNode → list GraphNode.

Local Abbreviation cmp := (compareResults toLowerCase localeCompare).
Local Abbreviation rank := (matchRank toLowerCase).

Lemma prefix_refl (s : string) : String.prefix s s = true.
Proof.
  induction s as [|a s IH]; [done|]. simpl.
  by destruct (Ascii.ascii_dec a a).
Qed.

(** The comparator puts a better match before a worse one, whatever
    [localeCompare] says. *)
Lemma compareResults_rank query a b :
  (rank query a < rank query b)%nat →
  cmp query a b = (-1)%Z ∧ cmp query b a = 1%Z.
Proof.
  unfold matchRank, compareResults, startsWith.
  destruct (String.eqb_spec (toLowerCase (n_label a)) (toLowerCase query))
    as [Ha|Ha];
  destruct (String.eqb_spec (toLowerCase (n_label b)) (toLowerCase query))
    as [Hb|Hb]; simpl.
  - lia.
  - done.
  - destruct (String.prefix _ (toLowerCase (n_label a))); lia.
  - destruct (String.prefix (toLowerCase query) (toLowerCase (n_label a)));
      destruct (String.prefix (toLowerCase query) (toLowerCase (n_label b)));
      simpl; intros; try lia; done.
Qed.

Lemma sorted_head_best query best rest :
  StronglySorted (fun a b => (cmp query a b <= 0)%Z) (best :: rest) →
  ∀ r, r ∈ best :: rest → (rank query best ≤ rank query r)%nat.
Proof.
  intros Hs r Hr. apply StronglySorted_inv in Hs as [_ Hall].
  apply elem_of_cons in Hr as [->|Hr]; [done|].
  rewrite Forall_forall in Hall. specialize (Hall r).
  destruct (decide (rank query best ≤ rank query r)%nat) as [|Hlt]; [done|].
  destruct (compareResults_rank query r best) as [_ Hgt]; [lia|].
  rewrite Hgt in Hall. exfalso.
  assert (1 <= 0)%Z; [|lia]. by apply Hall.
Qed.

(** X19. A search for a blank query, and a search that fails, clear the
    highlights and request no centring.  For any other query, whenever the
    runtime's sort returns the results rearranged and in the order of the
    comparator, the highlights are the normalised ids of the results,
    rearranged, and, when there is a result and the canvas has registered
    its centre function, exactly one centring is requested, 100 ms later,
    on the first highlighted id, whose node matches the query at least as
    well as every other result: an exact match of the label comes before a
    label that starts with the query, and that before any other. *)
Theorem handleSearch_centres_best_match (query : string)
    (results : list GraphNode) (st : SearchState) :
  (String.eqb (trim query) EmptyString = true →
   ∀ set reply,
     handleSearch trim toLowerCase localeCompare sort set query reply st
     = mkSearchState query [] (centerRequests st))
  ∧ (∀ set message,
       handleSearch trim toLowerCase localeCompare sort set query
                    (JS.Rejected message) st
       = mkSearchState query [] (centerRequests st))
  ∧ (String.eqb (trim query) EmptyString = false →
     sort (cmp query) results ≡ₚ results →
     StronglySorted (fun a b => (cmp query a b <= 0)%Z)
                    (sort (cmp query) results) →
     let st' := handleSearch trim toLowerCase localeCompare sort true query
                             (JS.Resolved results) st in
     searchQuery st' = query
     ∧ searchHighlights st' ≡ₚ map highlightId results
     ∧ match results with
       | [] => searchHighlights st' = []
               ∧ centerRequests st' = centerRequests st
       | _ :: _ =>
           ∃ best, best ∈ results
                   ∧ head (searchHighlights st') = Some (highlightId best)
                   ∧ centerRequests st'
                     = (centerRequests st ++ [(100%nat, highlightId best)])%list
                   ∧ ∀ r, r ∈ results →
                          (rank query best ≤ rank query r)%nat
       end).
Proof.
  split; [|split].
  - intros Hblank set reply. unfold handleSearch. by rewrite Hblank.
  - intros set message. unfold handleSearch.
    by destruct (String.eqb (trim query) EmptyString).
  - intros Hq Hperm Hsorted. unfold handleSearch. rewrite Hq.
    destruct (sort (cmp query) results) as [|best rest] eqn:Hsort.
    + apply Permutation_nil_l in Hperm. subst results. done.
    + cbn [searchQuery searchHighlights centerRequests].
      split; [done|]. split; [by rewrite <- Hperm|].
      destruct results as [|r0 results];
        [by apply Permutation_nil_r in Hperm|].
      exists best. split; [|split; [done|split; [done|]]].
      * rewrite <- Hperm. by left.
      * intros r Hr. apply (sorted_head_best query best rest Hsorted).
        by rewrite Hperm.
Qed.

End Search.

Lemma handleSearch_centres_best_match_witness :
  let sorted :=
    insertionSort (GraphViewSearch.compareResults (fun s => s) compareUnits
                                                  "graph") searchResults in
  let st' :=
    GraphViewSearch.handleSearch (fun s => s) (fun s => s) compareUnits
      (@insertionSort ForceGraphNode) true "graph" (JS.Resolved searchResults)
      (GraphViewSearch.mkSearchState EmptyString [] []) in
  sorted ≡ₚ searchResults
  ∧ StronglySorted
      (fun a b => (GraphViewSearch.compareResults (fun s => s) compareUnits
                     "graph" a b <= 0)%Z) sorted
  ∧ ∃ best, best ∈ searchResults
            ∧ head (GraphViewSearch.searchHighlights st')
              = Some (GraphViewSearch.highlightId best)
            ∧ GraphViewSearch.centerRequests st'
              = [(100%nat, GraphViewSearch.highlightId best)]
            ∧ ∀ r, r ∈ searchResults →
                   (matchRank (fun s => s) "graph" best
                    ≤ matchRank (fun s => s) "graph" r)%nat.
Proof.
  intros sorted st'.
  assert (Hperm : sorted ≡ₚ searchResults).
  { vm_compute. etransitivity; [apply perm_swap|]. apply perm_skip, perm_swap. }
  assert (Hsorted : StronglySorted
            (fun a b => (GraphViewSearch.compareResults (fun s => s)
                           compareUnits "graph" a b <= 0)%Z) sorted).
  { vm_compute. repeat constructor; discriminate. }
  split; [exact Hperm|]. split; [exact Hsorted|].
  destruct (handleSearch_centres_best_match (fun s => s) (fun s => s)
              compareUnits (@insertionSort ForceGraphNode) "graph"
              searchResults (GraphViewSearch.mkSearchState EmptyString [] []))
    as (_ & _ & H).
  exact (proj2 (proj2 (H eq_refl Hperm Hsorted))).
Defined.

(** The search for "graph" among "graph theory", "a graph" and "graph":
    the exact match is first and is the node centred on, the label that
    starts with the query is second. *)
Example search_for_graph :
  let st' :=
    GraphViewSearch.handleSearch (fun s => s) (fun s => s) compareUnits
      (@insertionSort ForceGraphNode) true "graph" (JS.Resolved searchResults)
      (GraphViewSearch.mkSearchState EmptyString [] []) in
  GraphViewSearch.searchHighlights st' = ["m3"; "n1"; "n2"]
  ∧ GraphViewSearch.centerRequests st' = [(100%nat, "m3")].
Proof. split; reflexivity. Qed.

(** ** A new node and the context menu *)

Section NewNode.
Import GraphView GraphCanvas.

Lemma findById_app nodes more i n :
  findById nodes i = Some n → findById (nodes ++ more) i = Some n.
Proof.
  induction nodes as [|m nodes IH]; simpl; [done|].
  by destruct (String.eqb (n_id m) i).
Qed.

Lemma filter_all {B : Type} (P : B → Prop) `{!∀ x, Decision (P x)}
    (l : list B) :
  (∀ x, x ∈ l → P x) → filter P l = l.
Proof.
  induction l as [|x l IH]; intros HP; [done|].
  rewrite filter_cons. case_decide as Hx.
  - f_equal. apply IH. intros y Hy. apply HP. by right.
  - destruct Hx. apply HP. by left.
Qed.

Lemma concat_map_ext {B C : Type} (f g : B → list C) (l : list B) :
  (∀ x, x ∈ l → f x = g x) → concat (map f l) = concat (map g l).
Proof.
  induction l as [|x l IH]; intros Hfg; [done|]. simpl.
  rewrite Hfg by by left. f_equal. apply IH. intros y Hy. apply Hfg. by right.
Qed.

Lemma connectedOf_app nodes more s link :
  n_id (l_source link) ∈ map n_id nodes →
  n_id (l_target link) ∈ map n_id nodes →
  connectedOf (nodes ++ more) s link = connectedOf nodes s link.
Proof.
  intros [sn Hs]%findById_elem [tn Ht]%findById_elem. unfold connectedOf.
  by rewrite (findById_app _ more _ _ Hs), (findById_app _ more _ _ Ht), Hs, Ht.
Qed.

Lemma connectedOf_outsider nodes s link :
  n_id (l_source link) ≠ s → n_id (l_target link) ≠ s →
  connectedOf nodes s link = [].
Proof.
  intros Hs Ht. unfold connectedOf.
  destruct (String.eqb_spec (n_id (l_source link)) s); [done|].
  by destruct (String.eqb_spec (n_id (l_target link)) s).
Qed.

(** X20. A node created by a click on the background, under an id that no
    held node carries, enters a closed graph isolated: its own connected
    list is empty and every former node is offered to it as unconnected;
    for every other node the connected list is as before and the new node
    is offered last among the unconnected ones. *)
Theorem created_node_is_unconnected (st : State)
    (event : JS.number * JS.number) (newNode : GraphNode) (s : string) :
  closed (graphData st) →
  n_id (toForceNode newNode) ∉ map n_id (fg_nodes (graphData st)) →
  let st' := handleCreateNode event (JS.Resolved newNode) st in
  let forceNode := toForceNode newNode in
  fg_nodes (graphData st') = (fg_nodes (graphData st) ++ [forceNode])%list
  ∧ getConnectedNodesInfo (graphData st') (n_id forceNode) = []
  ∧ getUnconnectedNodes (graphData st') (n_id forceNode)
    = fg_nodes (graphData st)
  ∧ (s ≠ n_id forceNode →
     getConnectedNodesInfo (graphData st') s
     = getConnectedNodesInfo (graphData st) s
     ∧ getUnconnectedNodes (graphData st') s
       = (getUnconnectedNodes (graphData st) s ++ [forceNode])%list).
Proof.
  intros Hc Hfresh. cbv zeta.
  destruct st as [[nodes links] sel open loading err cm loaded log].
  unfold handleCreateNode. cbn [graphData setGraphData setSelectedItem
    setIsPropertiesPanelOpen fg_nodes fg_links] in *.
  set (new := toForceNode newNode) in *.
  assert (Hends : ∀ l, l ∈ links →
            n_id (l_source l) ∈ map n_id nodes
            ∧ n_id (l_target l) ∈ map n_id nodes) by exact Hc.
  assert (Hout : ∀ l, l ∈ links →
            n_id (l_source l) ≠ n_id new ∧ n_id (l_target l) ≠ n_id new).
  { intros l Hl. destruct (Hends l Hl) as [Hs Ht].
    split; intros Heq; apply Hfresh; by rewrite <- Heq. }
  assert (Hids : ∀ i, connectedNodeIds
                        (mkForceGraphData (nodes ++ [new]) links) i
                      = connectedNodeIds (mkForceGraphData nodes links) i)
    by done.
  assert (Hnone : ∀ i, i ∉ connectedNodeIds (mkForceGraphData nodes links)
                                            (n_id new)).
  { intros i (l & isSource & Hl & Ho)%connectedNodeIds_spec.
    destruct (Hout l Hl) as [Hs Ht]. simpl in Hl.
    destruct Ho as [(Hs' & _)|(_ & Ht' & _)]; congruence. }
  assert (Hnotnew : ∀ i, n_id new ∉ connectedNodeIds
                                      (mkForceGraphData nodes links) i).
  { intros i (l & isSource & Hl & Ho)%connectedNodeIds_spec.
    destruct (Hout l Hl) as [Hs Ht].
    destruct Ho as [(_ & Ht' & _)|(_ & _ & Hs' & _)]; congruence. }
  split; [done|]. split; [|split].
  - unfold getConnectedNodesInfo. rewrite foldl_push.
    cbn [fg_nodes fg_links app].
    rewrite (concat_map_ext _ (fun _ => []) links).
    + clear. induction links as [|l links IH]; [done|exact IH].
    + intros l Hl. destruct (Hout l Hl) as [Hs Ht].
      by apply connectedOf_outsider.
  - unfold getUnconnectedNodes. cbn [fg_nodes fg_links].
    rewrite filter_app, filter_cons.
    case_decide as Hnew; [by destruct Hnew as [Hne _]|].
    rewrite filter_nil, app_nil_r. apply filter_all.
    intros n Hn. split; [|by rewrite Hids].
    intros Heq. apply Hfresh. rewrite <- Heq.
    by apply list_elem_of_In, in_map, list_elem_of_In.
  - intros Hne. split.
    + unfold getConnectedNodesInfo. rewrite !foldl_push.
      cbn [fg_nodes fg_links]. f_equal.
      apply concat_map_ext. intros l Hl. destruct (Hends l Hl) as [Hs Ht].
      by apply connectedOf_app.
    + unfold getUnconnectedNodes. cbn [fg_nodes fg_links].
      rewrite filter_app. f_equal.
      rewrite filter_cons, filter_nil. case_decide as Hnew; [done|].
      destruct Hnew. split; [done|]. rewrite Hids. apply Hnotnew.
Qed.

Lemma created_node_is_unconnected_witness :
  let newNode := sampleNode "d" 5 7 in
  let st' := handleCreateNode (JS.num 5, JS.num 7) (JS.Resolved newNode)
                              sampleState in
  closed (graphData sampleState)
  ∧ getConnectedNodesInfo (graphData st') "d" = []
  ∧ getUnconnectedNodes (graphData st') "d" = [node_a; node_b; node_c]
  ∧ getUnconnectedNodes (graphData st') "b"
    = (getUnconnectedNodes (graphData sampleState) "b" ++ [newNode])%list.
Proof.
  intros newNode st'.
  assert (Hc : closed (graphData sampleState)).
  { intros l Hl. apply list_elem_of_In in Hl.
    destruct Hl as [<-|[<-|[]]]; split; apply list_elem_of_In; simpl; tauto. }
  assert (Hfresh : n_id (toForceNode newNode)
                   ∉ map n_id (fg_nodes (graphData sampleState))).
  { intros Hin. apply list_elem_of_In in Hin. simpl in Hin.
    destruct Hin as [H|[H|[H|[]]]]; discriminate H. }
  destruct (created_node_is_unconnected sampleState (JS.num 5, JS.num 7)
              newNode "b" Hc Hfresh) as (_ & Hcon & Hun & Hother).
  split; [exact Hc|]. split; [exact Hcon|]. split; [exact Hun|].
  apply Hother. discriminate.
Defined.

End NewNode.
